(** * Invoice-to-Craftybase-CSV: the parsing core of [app.py]

    A shallow embedding of [clean], [parse_header], [parse_lines] and
    [to_craftybase_rows], together with the part of Python's [re], [str]
    and [float] behaviour those four functions rely on.

    Conventions of the embedding.
    - A Python [str] is a [string]; a character is the code point it
      carries, so the texts covered are those whose code points are below
      256.  The character tables ([\s], [\d], [\w], line boundaries,
      lower-casing) are Python's tables restricted to that range.
    - A Python [float] is a binary64 value of [SpecFloat.spec_float]
      (precision 53, [emax] 1024), with the operations of [SpecFloat].
    - A raised exception is the [Raise] case of [result]. *)

From Stdlib Require Import ZArith QArith Qround Bool List Ascii String Lia.
From Stdlib Require Import Floats.SpecFloat.
From stdpp Require Import base option gmap strings.

Local Open Scope string_scope.
Local Open Scope list_scope.
Local Open Scope Z_scope.

Set Default Proof Using "Type".

(* ================================================================== *)
(** * Characters *)

Module Char.

Definition code (c : ascii) : nat := nat_of_ascii c.

Definition between (lo hi : nat) (c : ascii) : bool :=
  (lo <=? code c)%nat && (code c <=? hi)%nat.

Definition is_code (n : nat) (c : ascii) : bool := (code c =? n)%nat.

(** [\d] on [str] patterns: the decimal digits. *)
Definition is_digit (c : ascii) : bool := between 48 57 c.

(** [\s] on [str] patterns and the characters removed by [str.strip()]:
    TAB LF VT FF CR, FS GS RS US, SPACE, NEL and NBSP. *)
Definition is_space (c : ascii) : bool :=
  between 9 13 c || between 28 32 c || is_code 133 c || is_code 160 c.

(** [\w] on [str] patterns: alphanumeric characters and the underscore. *)
Definition is_word (c : ascii) : bool :=
  between 48 57 c || between 65 90 c || between 97 122 c || is_code 95 c
  || is_code 170 c || is_code 178 c || is_code 179 c || is_code 181 c || is_code 185 c || is_code 186 c
  || between 188 190 c || between 192 214 c || between 216 246 c
  || between 248 255 c.

(** Line boundaries of [str.splitlines()]: LF VT FF CR, FS GS RS, NEL
    (CR LF counts once, see [splitlines]). *)
Definition is_linebreak (c : ascii) : bool :=
  between 10 13 c || between 28 30 c || is_code 133 c.

(** [str.lower()] on one character. *)
Definition lower (c : ascii) : ascii :=
  if between 65 90 c || between 192 214 c || between 216 222 c
  then ascii_of_nat (code c + 32) else c.

(** The upper-case partner of a character, where it has one in range. *)
Definition upper (c : ascii) : ascii :=
  if between 97 122 c || between 224 246 c || between 248 254 c
  then ascii_of_nat (code c - 32) else c.

Definition eqb (a b : ascii) : bool := Ascii.eqb a b.

Definition LF : ascii := ascii_of_nat 10.
Definition CR : ascii := ascii_of_nat 13.

End Char.

(* ================================================================== *)
(** * Strings: the [str] methods used by the program *)

Module Str.

Fixpoint all (p : ascii -> bool) (s : string) : bool :=
  match s with
  | EmptyString => true
  | String c s' => p c && all p s'
  end.

Fixpoint take (n : nat) (s : string) : string :=
  match n, s with
  | S n', String c s' => String c (take n' s')
  | _, _ => EmptyString
  end.

Fixpoint rev_app (s acc : string) : string :=
  match s with
  | EmptyString => acc
  | String c s' => rev_app s' (String c acc)
  end.

Definition rev (s : string) : string := rev_app s EmptyString.

Fixpoint drop_while (p : ascii -> bool) (s : string) : string :=
  match s with
  | String c s' => if p c then drop_while p s' else s
  | EmptyString => EmptyString
  end.

(** [s.strip()] *)
Definition strip (s : string) : string :=
  rev (drop_while Char.is_space (rev (drop_while Char.is_space s))).

(** [s.lower()] *)
Fixpoint lower (s : string) : string :=
  match s with
  | EmptyString => EmptyString
  | String c s' => String (Char.lower c) (lower s')
  end.

(** [s.replace(',', '')] : every occurrence of one character removed. *)
Fixpoint remove_char (x : ascii) (s : string) : string :=
  match s with
  | EmptyString => EmptyString
  | String c s' => if Char.eqb c x then remove_char x s' else String c (remove_char x s')
  end.

Fixpoint starts_with (p s : string) : bool :=
  match p, s with
  | EmptyString, _ => true
  | String a p', String b s' => Char.eqb a b && starts_with p' s'
  | String _ _, EmptyString => false
  end.

(** [p in s] *)
Fixpoint contains (p s : string) : bool :=
  starts_with p s ||
  match s with
  | EmptyString => false
  | String _ s' => contains p s'
  end.

Definition is_empty (s : string) : bool :=
  match s with EmptyString => true | _ => false end.

(** [s.splitlines()].  [cur] is the current line, reversed; [after_cr]
    says that the previous character was a CR, whose following LF
    belongs to the same line boundary. *)
Fixpoint splitlines_go (s cur : string) (after_cr : bool) : list string :=
  match s with
  | EmptyString => if is_empty cur then [] else [rev cur]
  | String c s' =>
      if after_cr && Char.eqb c Char.LF then splitlines_go s' cur false
      else if Char.is_linebreak c
           then rev cur :: splitlines_go s' EmptyString (Char.eqb c Char.CR)
           else splitlines_go s' (String c cur) false
  end.

Definition splitlines (s : string) : list string :=
  splitlines_go s EmptyString false.

(** [re.sub(r"\s+", " ", s)]: every maximal run of white space becomes
    one space.  [in_run] says that the previous character was white
    space. *)
Fixpoint collapse_ws (s : string) (in_run : bool) : string :=
  match s with
  | EmptyString => EmptyString
  | String c s' =>
      if Char.is_space c
      then if in_run then collapse_ws s' true
           else String " " (collapse_ws s' true)
      else String c (collapse_ws s' false)
  end.

End Str.

(* ================================================================== *)
(** * Regular expressions: the fragment of [re] the program uses

    Patterns are kept as syntax and run by a backtracking matcher that
    tries alternatives in the order of [re]: the left branch of [|]
    first, a greedy repetition longest first, a lazy one shortest first,
    and [re.search] start positions from left to right.  Every repetition
    in the program's patterns is over a single character, which is what
    [Rep] offers. *)

Module Re.

Inductive member :=
| One (c : ascii)            (* a character listed in [...] *)
| Range (lo hi : ascii).     (* lo-hi inside [...]          *)

Inductive atom :=
| Lit (c : ascii)            (* that character              *)
| Set_ (l : list member)     (* [...]                       *)
| Digit                      (* \d                          *)
| Space                      (* \s                          *)
| Dot.                       (* .                           *)

Inductive regex :=
| Eps
| Atom (a : atom)
| Lits (s : string)                                   (* literal text  *)
| Rep (a : atom) (lo : nat) (hi : option nat) (greedy : bool)
| Cat (r1 r2 : regex)
| Alt (r1 r2 : regex)
| Group (n : nat) (r : regex)                         (* ( ... )       *)
| Bol                                                 (* ^             *)
| Eol                                                 (* $             *)
| WordB.                                              (* \b            *)

Record flags := { ignorecase : bool; dotall : bool }.

Definition no_flags := {| ignorecase := false; dotall := false |}.
Definition IGNORECASE := {| ignorecase := true; dotall := false |}.
Definition DOTALL_IGNORECASE := {| ignorecase := true; dotall := true |}.

Definition member_ok (x : ascii) (i : member) : bool :=
  match i with
  | One c => Char.eqb x c
  | Range lo hi => Char.between (Char.code lo) (Char.code hi) x
  end.

Definition in_set (l : list member) (x : ascii) : bool := existsb (member_ok x) l.

(** One character against one atom.  Under IGNORECASE a literal is
    compared after lower-casing both sides and a set accepts a
    character when it holds the character or its case partner. *)
Definition atom_ok (fl : flags) (a : atom) (x : ascii) : bool :=
  match a with
  | Lit c =>
      if ignorecase fl then Char.eqb (Char.lower x) (Char.lower c)
      else Char.eqb x c
  | Set_ l =>
      in_set l x
      || (ignorecase fl && (in_set l (Char.lower x) || in_set l (Char.upper x)))
  | Digit => Char.is_digit x
  | Space => Char.is_space x
  | Dot => dotall fl || negb (Char.eqb x Char.LF)
  end.

(** Captured groups, most recent binding first. *)
Definition caps := list (nat * string).

Fixpoint lookup (n : nat) (c : caps) : option string :=
  match c with
  | [] => None
  | (k, v) :: c' => if (k =? n)%nat then Some v else lookup n c'
  end.

(** The text consumed between position [s] and the later position [s']
    of the same string. *)
Definition consumed (s s' : string) : string :=
  Str.take (String.length s - String.length s') s.

Definition can_more (hi : option nat) : bool :=
  match hi with Some O => false | _ => true end.

Definition dec (hi : option nat) : option nat :=
  match hi with Some n => Some (Nat.pred n) | None => None end.

Definition or_else {A} (x : option A) (y : option A) : option A :=
  match x with Some _ => x | None => y end.

Definition head_is_word (s : string) : bool :=
  match s with String c _ => Char.is_word c | EmptyString => false end.

Definition prev_is_word (p : option ascii) : bool :=
  match p with Some c => Char.is_word c | None => false end.

Definition at_end (s : string) : bool :=
  match s with
  | EmptyString => true
  | String c EmptyString => Char.eqb c Char.LF
  | _ => false
  end.

Section Matcher.
Variable fl : flags.
Context {A : Type}.

(** A position is the character before it ([None] at the start of the
    text) and the text after it.  A continuation receives the position
    reached and answers with the overall result, [None] asking the
    matcher to backtrack. *)

Fixpoint lits (l : string) (p : option ascii) (s : string)
         (k : option ascii -> string -> option A) : option A :=
  match l with
  | EmptyString => k p s
  | String c l' =>
      match s with
      | String x s' => if atom_ok fl (Lit c) x then lits l' (Some x) s' k else None
      | EmptyString => None
      end
  end.

Fixpoint rep_greedy (a : atom) (lo : nat) (hi : option nat)
         (p : option ascii) (s : string)
         (k : option ascii -> string -> option A) : option A :=
  let stop := if (lo =? 0)%nat then k p s else None in
  match s with
  | String x s' =>
      if atom_ok fl a x && can_more hi
      then or_else (rep_greedy a (Nat.pred lo) (dec hi) (Some x) s' k) stop
      else stop
  | EmptyString => stop
  end.

Fixpoint rep_lazy (a : atom) (lo : nat) (hi : option nat)
         (p : option ascii) (s : string)
         (k : option ascii -> string -> option A) : option A :=
  let more :=
    match s with
    | String x s' =>
        if atom_ok fl a x && can_more hi
        then rep_lazy a (Nat.pred lo) (dec hi) (Some x) s' k
        else None
    | EmptyString => None
    end in
  if (lo =? 0)%nat then or_else (k p s) more else more.

Fixpoint run (r : regex) (p : option ascii) (s : string) (c : caps)
         (k : option ascii -> string -> caps -> option A) : option A :=
  match r with
  | Eps => k p s c
  | Atom a =>
      match s with
      | String x s' => if atom_ok fl a x then k (Some x) s' c else None
      | EmptyString => None
      end
  | Lits l => lits l p s (fun p' s' => k p' s' c)
  | Rep a lo hi true => rep_greedy a lo hi p s (fun p' s' => k p' s' c)
  | Rep a lo hi false => rep_lazy a lo hi p s (fun p' s' => k p' s' c)
  | Cat r1 r2 => run r1 p s c (fun p' s' c' => run r2 p' s' c' k)
  | Alt r1 r2 => or_else (run r1 p s c k) (run r2 p s c k)
  | Group n r1 =>
      run r1 p s c (fun p' s' c' => k p' s' ((n, consumed s s') :: c'))
  | Bol => match p with None => k p s c | Some _ => None end
  | Eol => if at_end s then k p s c else None
  | WordB => if xorb (prev_is_word p) (head_is_word s) then k p s c else None
  end.
End Matcher.

(** A match object: the matched text and the groups. *)
Record rmatch := { whole : string; groups : caps }.

(** [m.group(n)] for a group that took part in the match.  ([re] answers
    [None] for a group that did not; [binds_spec] below shows that every
    group the program reads takes part in every match of its pattern.) *)
Definition group (m : rmatch) (n : nat) : string :=
  match lookup n (groups m) with Some v => v | None => EmptyString end.

Definition match_here (fl : flags) (r : regex) (p : option ascii) (s : string)
  : option rmatch :=
  run fl r p s [] (fun _ s' c => Some {| whole := consumed s s'; groups := c |}).

Fixpoint search_from (fl : flags) (r : regex) (p : option ascii) (s : string)
  : option rmatch :=
  or_else (match_here fl r p s)
          match s with
          | String x s' => search_from fl r (Some x) s'
          | EmptyString => None
          end.

(** [re.search(pattern, text, flags)] *)
Definition search (fl : flags) (r : regex) (text : string) : option rmatch :=
  search_from fl r None text.

(** Pattern syntax. *)
Definition star (a : atom) := Rep a 0 None true.         (* a*    *)
Definition plus (a : atom) := Rep a 1 None true.         (* a+    *)
Definition lazy_star (a : atom) := Rep a 0 None false.   (* a*?   *)
Definition opt (a : atom) := Rep a 0 (Some 1%nat) true.  (* a?    *)
Definition times (a : atom) (n : nat) := Rep a n (Some n) true.      (* a{n}   *)
Definition upto (a : atom) (n m : nat) := Rep a n (Some m) true.     (* a{n,m} *)

End Re.

Infix "+++" := Re.Cat (at level 60, right associativity).

(* ================================================================== *)
(** * Exceptions *)

Inductive exn := ValueError | OverflowError.

Inductive result (A : Type) :=
| Ok (a : A)
| Raise (e : exn).
Arguments Ok {A} a.
Arguments Raise {A} e.

Definition bind {A B} (x : result A) (f : A -> result B) : result B :=
  match x with Ok a => f a | Raise e => Raise e end.

Notation "'do' x <- e1 ; e2" := (bind e1 (fun x => e2))
  (at level 10, x name, e1 at level 100, e2 at level 200).

(* ================================================================== *)
(** * Numbers: [float], [int], [round] *)

Module Num.

Definition float := spec_float.

Definition prec : Z := 53.
Definition emax : Z := 1024.

Definition zero : float := S754_zero false.            (* 0.0 *)
Definition add : float -> float -> float := SFadd prec emax.

(** The binary64 value nearest to [n / d] (ties to even), with the sign
    [neg]; [n = 0] gives a zero of that sign. *)
Definition of_ratio (neg : bool) (n : Z) (d : positive) : float :=
  match n with
  | Zpos m => SFdiv prec emax (S754_finite neg m 0) (S754_finite false d 0)
  | _ => S754_zero neg
  end.

Definition pow10 (k : nat) : positive := Z.to_pos (10 ^ Z.of_nat k).

(** Leading decimal digits of [s]: their value on top of [acc], how many
    there are, and the rest of [s]. *)
Fixpoint digits (s : string) (acc : Z) (cnt : nat) : Z * nat * string :=
  match s with
  | String c s' =>
      if Char.is_digit c
      then digits s' (10 * acc + Z.of_nat (Char.code c - 48)) (S cnt)
      else (acc, cnt, s)
  | EmptyString => (acc, cnt, s)
  end.

Definition sign (s : string) : bool * string :=
  match s with
  | String "-" s' => (true, s')
  | String "+" s' => (false, s')
  | _ => (false, s)
  end.

(** [float(s)] for a string [s] written with a sign, digits and a
    decimal point, the only forms the program's patterns can capture:
    [ValueError] unless [s] is [sign? (digits+ (. digits* )? | . digits+)];
    otherwise the correctly rounded value. *)
Definition float_of_string (s : string) : result float :=
  let '(neg, s1) := sign s in
  let '(n1, c1, s2) := digits s1 0 0 in
  match s2 with
  | EmptyString =>
      if (c1 =? 0)%nat then Raise ValueError else Ok (of_ratio neg n1 1)
  | String "." s3 =>
      let '(n2, c2, s4) := digits s3 n1 0 in
      match s4 with
      | EmptyString =>
          if (c1 + c2 =? 0)%nat then Raise ValueError
          else Ok (of_ratio neg n2 (pow10 c2))
      | _ => Raise ValueError
      end
  | _ => Raise ValueError
  end.

(** [bool(x)] for a float: false exactly for the two zeros. *)
Definition truthy (x : float) : bool :=
  match x with S754_zero _ => false | _ => true end.

(** [int(x)] for a float: the integral part, towards zero. *)
Definition int_of_float (x : float) : result Z :=
  match x with
  | S754_zero _ => Ok 0
  | S754_finite s m e => Ok (cond_Zopp s (Z.shiftl (Zpos m) e))
  | S754_infinity _ => Raise OverflowError
  | S754_nan => Raise ValueError
  end.

(** The integer nearest to [n / 2^k], ties to even. *)
Definition div_pow2_even (n : Z) (k : Z) : Z :=
  let q := Z.shiftr n k in
  let r := n - Z.shiftl q k in
  match Z.compare (2 * r) (Z.shiftl 1 k) with
  | Lt => q
  | Gt => q + 1
  | Eq => if Z.even q then q else q + 1
  end.

(** [round(x, 2)]: the exact value of [x] is rounded to the nearest
    multiple of 1/100 (ties to even) and that decimal is converted back
    to the nearest float; infinities and NaN are returned unchanged. *)
Definition round2 (x : float) : float :=
  match x with
  | S754_finite s m e =>
      let n := if 0 <=? e then Z.shiftl (Zpos m * 100) e
               else div_pow2_even (Zpos m * 100) (- e) in
      of_ratio s n 100
  | _ => x
  end.

(** A quantity is an [int] or a [float]. *)
Inductive num :=
| NInt (z : Z)
| NFloat (x : float).

(** [bool(q)] *)
Definition num_truthy (q : num) : bool :=
  match q with
  | NInt z => negb (z =? 0)
  | NFloat x => truthy x
  end.

(** [int(q)] *)
Definition int_of_num (q : num) : result Z :=
  match q with
  | NInt z => Ok z
  | NFloat x => int_of_float x
  end.

(** The exact value of a finite float. *)
Definition to_Q (x : float) : Q :=
  match x with
  | S754_finite s m e =>
      if 0 <=? e then inject_Z (cond_Zopp s (Zpos m * 2 ^ e))
      else Qmake (cond_Zopp s (Zpos m)) (Z.to_pos (2 ^ (- e)))
  | _ => 0%Q
  end.

End Num.

(* ================================================================== *)
(** * The program *)

Import Re.
Import Num.

Definition VENDOR_NAME : string := "Grand Brass Lamp Parts, LLC.".

(** [clean] *)
Definition clean (s : string) : string :=
  Str.collapse_ws (Str.strip s) false.

(** ** Patterns of [parse_header] *)

Definition upper_digit_dash : atom := Set_ [Range "A" "Z"; Range "0" "9"; One "-"].
Definition digit_dash : atom := Set_ [Range "0" "9"; One "-"].
Definition upper_digit : atom := Set_ [Range "A" "Z"; Range "0" "9"].

(** [Reference No\.\s*([A-Z0-9-]+)] *)
Definition re_invoice_no : regex :=
  Lits "Reference No." +++ star Space +++ Group 1 (plus upper_digit_dash).

(** [\bDate:\s*(\d{1,2}/\d{1,2}/\d{4})] *)
Definition re_purchase_date : regex :=
  WordB +++ Lits "Date:" +++ star Space
  +++ Group 1 (upto Digit 1 2 +++ Atom (Lit "/") +++ upto Digit 1 2
               +++ Atom (Lit "/") +++ times Digit 4).

(** [SO\s*NUMBER\s*([0-9-]+)], IGNORECASE *)
Definition re_so_number : regex :=
  Lits "SO" +++ star Space +++ Lits "NUMBER" +++ star Space
  +++ Group 1 (plus digit_dash).

(** [Shipment Number\s*([0-9-]+)], IGNORECASE *)
Definition re_shipment_number : regex :=
  Lits "Shipment Number" +++ star Space +++ Group 1 (plus digit_dash).

(** [Tracking\s*#\s*([A-Z0-9]+)], IGNORECASE *)
Definition re_tracking : regex :=
  Lits "Tracking" +++ star Space +++ Atom (Lit "#") +++ star Space
  +++ Group 1 (plus upper_digit).

(** [TRACKING NUMBER\s*\n([A-Z0-9]+)] *)
Definition re_tracking_heading : regex :=
  Lits "TRACKING NUMBER" +++ star Space +++ Atom (Lit Char.LF)
  +++ Group 1 (plus upper_digit).

(** [if m: hdr[key] = m.group(1)] *)
Definition set_group1 (key : string) (m : option rmatch)
           (hdr : gmap string string) : gmap string string :=
  match m with
  | Some m => <[key := group m 1]> hdr
  | None => hdr
  end.

(** [parse_header] *)
Definition parse_header (text : string) : gmap string string :=
  let hdr := ∅ in
  let hdr := set_group1 "invoice_no" (search no_flags re_invoice_no text) hdr in
  let hdr := set_group1 "purchase_date" (search no_flags re_purchase_date text) hdr in
  let hdr := set_group1 "so_number" (search IGNORECASE re_so_number text) hdr in
  let hdr := set_group1 "shipment_number" (search IGNORECASE re_shipment_number text) hdr in
  let m := search IGNORECASE re_tracking text in
  let m := match m with
           | None => search no_flags re_tracking_heading text
           | Some _ => m
           end in
  set_group1 "tracking" m hdr.

(** ** Line items *)

(** A line item is a dict; a field is [None] when the dict has no such
    key.  [parse_lines] always writes all five keys. *)
Record LineItem := {
  sku : option string;
  name : option string;
  qty : option num;
  price_subtotal : option float;
  shipping : option float
}.

(** ** Patterns of [parse_lines] *)

Definition amount_chars : atom := Set_ [Range "0" "9"; One ","; One "."].
Definition number_chars : atom := Set_ [Range "0" "9"; One "."; One "-"].
Definition digit09 : atom := Set_ [Range "0" "9"].

(** [NO\.\s*ITEM.*?AMOUNT\n(.*?)\n(?:THANK YOU|Sales Total|Freight Total)],
    DOTALL | IGNORECASE *)
Definition re_table : regex :=
  Lits "NO." +++ star Space +++ Lits "ITEM" +++ lazy_star Dot +++ Lits "AMOUNT"
  +++ Atom (Lit Char.LF) +++ Group 1 (lazy_star Dot) +++ Atom (Lit Char.LF)
  +++ Alt (Lits "THANK YOU") (Alt (Lits "Sales Total") (Lits "Freight Total")).

(** [^(NO\.|ITEM|EACH\s+ORDERED|SHIP VIA|SO TYPE)], IGNORECASE *)
Definition re_chrome : regex :=
  Bol +++ Group 1 (Alt (Lits "NO.")
                  (Alt (Lits "ITEM")
                  (Alt (Lits "EACH" +++ plus Space +++ Lits "ORDERED")
                  (Alt (Lits "SHIP VIA")
                       (Lits "SO TYPE"))))).

(** [\bFreight\b], IGNORECASE *)
Definition re_freight : regex := WordB +++ Lits "Freight" +++ WordB.

(** [([0-9]+\.[0-9]{2})\s*$] *)
Definition re_trailing_amount : regex :=
  Group 1 (plus digit09 +++ Atom (Lit ".") +++ times digit09 2)
  +++ star Space +++ Eol.

(** [^\d+\s+([A-Z0-9-]+):?\s+(.*?)\s+EACH\s+([0-9.-]+)\s+([0-9.-]+)\s+([0-9.-]+)\s+([0-9,.]+)\s+([0-9,.]+)$] *)
Definition re_full_item : regex :=
  Bol +++ plus Digit +++ plus Space +++ Group 1 (plus upper_digit_dash)
  +++ opt (Lit ":") +++ plus Space +++ Group 2 (lazy_star Dot) +++ plus Space
  +++ Lits "EACH" +++ plus Space +++ Group 3 (plus number_chars)
  +++ plus Space +++ Group 4 (plus number_chars)
  +++ plus Space +++ Group 5 (plus number_chars)
  +++ plus Space +++ Group 6 (plus amount_chars)
  +++ plus Space +++ Group 7 (plus amount_chars) +++ Eol.

(** [^\d+\s+([A-Z0-9-]+):?\s+(.*?)\s+([0-9,.]+)\s+([0-9,.]+)$] *)
Definition re_short_item : regex :=
  Bol +++ plus Digit +++ plus Space +++ Group 1 (plus upper_digit_dash)
  +++ opt (Lit ":") +++ plus Space +++ Group 2 (lazy_star Dot)
  +++ plus Space +++ Group 3 (plus amount_chars)
  +++ plus Space +++ Group 4 (plus amount_chars) +++ Eol.

Definition is_match (m : option rmatch) : bool :=
  match m with Some _ => true | None => false end.

Definition item (sku name : string) (qty : num) (price_subtotal shipping : float)
  : LineItem :=
  {| sku := Some sku; name := Some name; qty := Some qty;
     price_subtotal := Some price_subtotal; shipping := Some shipping |}.

(** [try: float(amount.replace(',', '')) except: 0.0] *)
Definition float_or_zero (amount : string) : float :=
  match float_of_string (Str.remove_char "," amount) with
  | Ok v => v
  | Raise _ => zero
  end.

(** The body of the [for raw in block.splitlines()] loop of [parse_lines]:
    [lines] before the iteration, [lines] after it, or the exception that
    leaves the loop. *)
Definition parse_line (raw : string) (lines : list LineItem)
  : result (list LineItem) :=
  let s := clean raw in
  if Str.is_empty s then Ok lines
  else if is_match (search IGNORECASE re_chrome s) then Ok lines
  else if is_match (search IGNORECASE re_freight s) then
    let m_amt := search no_flags re_trailing_amount s in
    do ship_amt <- match m_amt with
                   | Some m => float_of_string (group m 1)
                   | None => Ok zero
                   end;
    Ok (lines ++ [item "" "Freight - UPS Ground" (NInt 1) zero ship_amt])
  else
    match search no_flags re_full_item s with
    | None =>
        match search no_flags re_short_item s with
        | Some m =>
            let amount := group m 4 in
            let amt_val := float_or_zero amount in
            Ok (lines ++ [item (group m 1) (group m 2) (NInt 1) amt_val zero])
        | None => Ok lines
        end
    | Some m =>
        do qty <- (if negb (Str.is_empty (group m 3))
                   then do x <- float_of_string (group m 3); Ok (NFloat x)
                   else Ok (NInt 1));
        do amount <- (if negb (Str.is_empty (group m 7))
                      then float_of_string (Str.remove_char "," (group m 7))
                      else Ok zero);
        Ok (lines ++ [item (group m 1) (group m 2) qty amount zero])
    end.

Fixpoint parse_loop (raws : list string) (lines : list LineItem)
  : result (list LineItem) :=
  match raws with
  | [] => Ok lines
  | raw :: raws' => do lines' <- parse_line raw lines; parse_loop raws' lines'
  end.

(** [block = tab_m.group(1) if tab_m else text] *)
Definition table_block (text : string) : string :=
  match search DOTALL_IGNORECASE re_table text with
  | Some tab_m => group tab_m 1
  | None => text
  end.

(** [parse_lines] *)
Definition parse_lines (text : string) : result (list LineItem) :=
  parse_loop (Str.splitlines (table_block text)) [].

(** ** Export rows *)

Record ExportRow := {
  purchase_date : option string;
  code : option string;
  material_sku : string;
  material_name : string;
  vendor : string;
  lot_number : string;
  notes : option string;
  line_item_quantity : Z;
  line_item_category_id : string;
  line_item_price : float;
  tax : float;
  row_shipping : float;               (* column 'shipping' *)
  discount : float;
  grand_total : float;
  paid : string
}.

(** [if meta.get(key): parts.append(f"{label} {meta[key]}")] *)
Definition add_part (meta : gmap string string) (key label : string)
           (parts : list string) : list string :=
  match meta !! key with
  | Some v => if Str.is_empty v then parts else parts ++ [label +:+ " " +:+ v]
  | None => parts
  end.

(** The separator of the notes, " • ": the bullet is outside the one-byte
    range and is carried as its three UTF-8 bytes. *)
Definition NOTES_SEP : string := " • ".

Definition make_notes (meta : gmap string string) : option string :=
  let parts := [] in
  let parts := add_part meta "so_number" "SO" parts in
  let parts := add_part meta "shipment_number" "Shipment" parts in
  let parts := add_part meta "tracking" "Tracking" parts in
  match parts with
  | [] => None
  | _ => Some (String.concat NOTES_SEP parts)
  end.

(** [it.get('sku','')], [it.get('name','')] *)
Definition get_str (v : option string) : string :=
  match v with Some s => s | None => EmptyString end.

(** [it.get('qty') or 1] *)
Definition qty_or_1 (v : option num) : num :=
  match v with
  | Some q => if num_truthy q then q else NInt 1
  | None => NInt 1
  end.

(** [float(it.get(key) or 0.0)] *)
Definition float_or_0 (v : option float) : float :=
  match v with
  | Some x => if truthy x then x else zero
  | None => zero
  end.

(** [it.get('sku','') == '' and 'freight' in it.get('name','').lower()] *)
Definition is_freight (it : LineItem) : bool :=
  Str.is_empty (get_str (sku it))
  && Str.contains "freight" (Str.lower (get_str (name it))).

(** The dict built for one item in the loop of [to_craftybase_rows]. *)
Definition make_row (meta : gmap string string) (notes : option string)
           (it : LineItem) : result ExportRow :=
  let is_freight := is_freight it in
  do quantity <- int_of_num (qty_or_1 (qty it));
  Ok {| purchase_date := meta !! "purchase_date";
        code := meta !! "invoice_no";
        material_sku := get_str (sku it);
        material_name := get_str (name it);
        vendor := VENDOR_NAME;
        lot_number := "";
        notes := notes;
        line_item_quantity := quantity;
        line_item_category_id := if is_freight then "Shipping" else "Materials";
        line_item_price :=
          if is_freight then zero else round2 (float_or_0 (price_subtotal it));
        tax := zero;
        row_shipping := round2 (float_or_0 (shipping it));
        discount := zero;
        grand_total :=
          round2 (add (float_or_0 (price_subtotal it)) (float_or_0 (shipping it)));
        paid := "Y" |}.

Fixpoint rows_loop (meta : gmap string string) (notes : option string)
         (items : list LineItem) (rows : list ExportRow)
  : result (list ExportRow) :=
  match items with
  | [] => Ok rows
  | it :: items' =>
      do line <- make_row meta notes it;
      rows_loop meta notes items' (rows ++ [line])
  end.

(** [to_craftybase_rows]; the data frame is the list of its rows. *)
Definition to_craftybase_rows (meta : gmap string string) (items : list LineItem)
  : result (list ExportRow) :=
  rows_loop meta (make_notes meta) items [].

(* ================================================================== *)
(** * What a match is: the declarative reading of a pattern *)

Module ReSpec.

(** The character before the position reached after reading [v] from a
    position whose previous character is [p]. *)
Fixpoint end_prev (p : option ascii) (v : string) : option ascii :=
  match v with
  | EmptyString => p
  | String x v' => end_prev (Some x) v'
  end.

(** [v] is the literal text [l], up to case under IGNORECASE. *)
Fixpoint lits_ok (fl : flags) (l v : string) : bool :=
  match l, v with
  | EmptyString, EmptyString => true
  | String c l', String x v' => atom_ok fl (Lit c) x && lits_ok fl l' v'
  | _, _ => false
  end.

Definition within (hi : option nat) (n : nat) : Prop :=
  match hi with Some h => (n <= h)%nat | None => True end.

(** [matches fl r p s c p' s' c']: pattern [r] can match from the
    position [(p, s)] to the position [(p', s')], turning the captures
    [c] into [c'].  No order among the possible matches is implied. *)
Inductive matches (fl : flags)
  : regex -> option ascii -> string -> caps ->
    option ascii -> string -> caps -> Prop :=
| M_eps p s c : matches fl Eps p s c p s c
| M_atom a x p s c :
    atom_ok fl a x = true ->
    matches fl (Atom a) p (String x s) c (Some x) s c
| M_lits l v p s c :
    lits_ok fl l v = true ->
    matches fl (Lits l) p (v +:+ s) c (end_prev p v) s c
| M_rep a lo hi g v p s c :
    Str.all (atom_ok fl a) v = true ->
    (lo <= String.length v)%nat -> within hi (String.length v) ->
    matches fl (Rep a lo hi g) p (v +:+ s) c (end_prev p v) s c
| M_cat r1 r2 p s c p1 s1 c1 p2 s2 c2 :
    matches fl r1 p s c p1 s1 c1 -> matches fl r2 p1 s1 c1 p2 s2 c2 ->
    matches fl (Cat r1 r2) p s c p2 s2 c2
| M_alt_l r1 r2 p s c p' s' c' :
    matches fl r1 p s c p' s' c' -> matches fl (Alt r1 r2) p s c p' s' c'
| M_alt_r r1 r2 p s c p' s' c' :
    matches fl r2 p s c p' s' c' -> matches fl (Alt r1 r2) p s c p' s' c'
| M_group n r p s c p' s' c' :
    matches fl r p s c p' s' c' ->
    matches fl (Group n r) p s c p' s' ((n, consumed s s') :: c')
| M_bol s c : matches fl Bol None s c None s c
| M_eol p s c : at_end s = true -> matches fl Eol p s c p s c
| M_wordb p s c :
    xorb (prev_is_word p) (head_is_word s) = true ->
    matches fl WordB p s c p s c.

(** [r] matches in [text] at the position after [pre]. *)
Definition matches_at (fl : flags) (r : regex) (pre rest : string)
           (m : rmatch) : Prop :=
  exists p' s' c',
    matches fl r (end_prev None pre) rest [] p' s' c'
    /\ m = {| whole := consumed rest s'; groups := c' |}.

(** The groups every match of [r] binds. *)
Fixpoint binds (r : regex) : list nat :=
  match r with
  | Cat r1 r2 => binds r1 ++ binds r2
  | Group n r1 => n :: binds r1
  | _ => []
  end.

End ReSpec.

Import ReSpec.

(* ================================================================== *)
(** * Notions used to state the properties *)

Module Spec.

(** Two floats carry the same number: they are the same float, or both
    are a zero (Python's [==] does not tell [0.0] from [-0.0]). *)
Definition same_number (x y : float) : Prop :=
  x = y \/ (exists s t, x = S754_zero s /\ y = S754_zero t).

Definition is_finite (x : float) : bool :=
  match x with
  | S754_zero _ | S754_finite _ _ _ => true
  | _ => false
  end.

(** The integral part of a rational, towards zero. *)
Definition Qtrunc (q : Q) : Z := Z.quot (Qnum q) (Zpos (Qden q)).

(** A float that is a number with a fractional part. *)
Definition non_integer (x : float) : Prop :=
  is_finite x = true /\ ~ (to_Q x == inject_Z (Qtrunc (to_Q x)))%Q.

(** A quantity that is [0], [0.0] (of either sign) or missing. *)
Definition falsy_qty (q : option num) : Prop :=
  q = None \/ q = Some (NInt 0) \/ exists s, q = Some (NFloat (S754_zero s)).

(** [v] is written as digits, a point and two digits. *)
Definition is_amount (v : string) : Prop :=
  exists ds d1 d2,
    v = ds +:+ String "." (String d1 (String d2 ""))
    /\ ds <> "" /\ Str.all Char.is_digit ds = true
    /\ Char.is_digit d1 = true /\ Char.is_digit d2 = true.

(** The last character of [a] satisfies [f]. *)
Definition last_sat (f : ascii -> bool) (a : string) : bool :=
  match end_prev None a with Some c => f c | None => false end.

Definition last_is_digit (pre : string) : bool := last_sat Char.is_digit pre.

(** The line [s] ends with the amount [v]: only white space follows
    [v], and [v] takes all the digits in front of its point. *)
Definition ends_with_amount (s v : string) : Prop :=
  exists pre ws,
    s = pre +:+ v +:+ ws /\ is_amount v
    /\ Str.all Char.is_space ws = true /\ last_is_digit pre = false.

(** An item that a freight line gives: fixed SKU, name and quantity,
    and no [price_subtotal]. *)
Definition freight_shaped (it : LineItem) : Prop :=
  exists ship, it = item "" "Freight - UPS Ground" (NInt 1) zero ship.

(** An item that a full or short item line gives: no [shipping]. *)
Definition material_shaped (it : LineItem) : Prop :=
  exists sku name q amount, it = item sku name q amount zero.

(** At most one of the two amounts of an item is not 0.0. *)
Definition one_sided (it : LineItem) : Prop :=
  (freight_shaped it /\ price_subtotal it = Some zero)
  \/ (material_shaped it /\ shipping it = Some zero).

Definition last_is_word (pre : string) : bool :=
  prev_is_word (end_prev None pre).

(** The line [s] holds the word [w], in some casing, with no word
    character right before or right after it. *)
Definition has_word (w s : string) : Prop :=
  exists pre mid post,
    s = pre +:+ mid +:+ post /\ Str.lower mid = Str.lower w
    /\ last_is_word pre = false /\ head_is_word post = false.

(** The text holds a terminal marker of the table, in some casing, at the
    start of a line that follows a line feed. *)
Definition has_marker (text : string) : Prop :=
  exists pre mk post,
    text = pre +:+ String Char.LF (mk +:+ post)
    /\ (Str.lower mk = "thank you" \/ Str.lower mk = "sales total"
        \/ Str.lower mk = "freight total").

(** What one line contributes: the items [parse_line] appends. *)
Definition line_items (raw : string) : result (list LineItem) :=
  parse_line raw [].

(** The per-line classification applied to every line in turn. *)
Fixpoint scan (raws : list string) : result (list LineItem) :=
  match raws with
  | [] => Ok []
  | raw :: raws' =>
      do here <- line_items raw;
      do rest <- scan raws';
      Ok (here ++ rest)
  end.

(** A quantity that is the integer [z], as an [int] or as a float. *)
Definition num_is (q : num) (z : Z) : Prop :=
  q = NInt z
  \/ exists x, q = NFloat x /\ is_finite x = true /\ (to_Q x == inject_Z z)%Q.

(** The match that decides a key of the header record: the search for
    the key's label pattern (for the tracking number, the search for
    "Tracking #" and, when that fails, the one for the
    "TRACKING NUMBER" heading). *)
Definition header_search (key text : string) : option rmatch :=
  if decide (key = "invoice_no") then search no_flags re_invoice_no text
  else if decide (key = "purchase_date") then search no_flags re_purchase_date text
  else if decide (key = "so_number") then search IGNORECASE re_so_number text
  else if decide (key = "shipment_number") then search IGNORECASE re_shipment_number text
  else if decide (key = "tracking") then
    or_else (search IGNORECASE re_tracking text)
            (search no_flags re_tracking_heading text)
  else None.

(** The five keys of a header record. *)
Definition header_keys : list string :=
  ["invoice_no"; "purchase_date"; "so_number"; "shipment_number"; "tracking"].

(** [m.group(1)] as [re] gives it, [None] for a group left out. *)
Definition group1 (m : option rmatch) : option string :=
  match m with
  | Some m => lookup 1 (groups m)
  | None => None
  end.

End Spec.

Import Spec.

(* ================================================================== *)
(** * Sample data: the scenarios of the specification *)

Module Samples.

Definition f2_5 : float := S754_finite false 5629499534213120 (-51).   (* 2.5   *)
Definition f2_7 : float := S754_finite false 6079859496950170 (-51).   (* 2.7   *)
Definition f3 : float := S754_finite false 6755399441055744 (-51).     (* 3.0   *)
Definition f7_5 : float := S754_finite false 8444249301319680 (-50).   (* 7.5   *)
Definition f12_34 : float := S754_finite false 6946802425218990 (-49). (* 12.34 *)

Definition brass_line : string :=
  "12 BR-100: Brass Collar EACH 2.50 2.50 0.00 3 7.50".

Definition freight_line : string := "UPS Ground Freight 12.34".

Definition brass_item : LineItem :=
  item "BR-100" "Brass Collar" (NFloat f2_5) f7_5 zero.

Definition freight_item : LineItem :=
  item "" "Freight - UPS Ground" (NInt 1) zero f12_34.

(** A full-item line whose quantity field is not a number. *)
Definition bad_qty_line : string := "3 AB-1: Widget EACH 1.2.3 1 0 2.00 2.00".

(** A full-item line whose amount field is not a number. *)
Definition bad_amount_line : string := "3 AB-1: Widget EACH 1 1 0 2.00 1.2.3".

Definition header_text : string :=
  "Reference No. ABC-123" +:+ String Char.LF "Date: 4/5/2024".

Definition row_of (it : LineItem) (q : Z) (cat : string)
           (price ship total : float) : ExportRow :=
  {| purchase_date := None; code := None;
     material_sku := get_str (sku it); material_name := get_str (name it);
     vendor := VENDOR_NAME; lot_number := ""; notes := None;
     line_item_quantity := q; line_item_category_id := cat;
     line_item_price := price; tax := zero; row_shipping := ship;
     discount := zero; grand_total := total; paid := "Y" |}.

(** An invoice text with a table region. *)
Definition table_text : string :=
  "INVOICE" +:+ String Char.LF "NO. ITEM DESCRIPTION AMOUNT"
  +:+ String Char.LF brass_line +:+ String Char.LF freight_line
  +:+ String Char.LF "Sales Total 19.84" +:+ String Char.LF "THANK YOU".

End Samples.

Import Samples.

(* ================================================================== *)
(** * Further notions used to state properties *)

Module Props.

(** The longest prefix of [s] made of [f]-characters, and the rest. *)
Fixpoint span (f : ascii -> bool) (s : string) : string * string :=
  match s with
  | String c s' =>
      if f c then let '(a, b) := span f s' in (String c a, b) else (EmptyString, s)
  | EmptyString => (EmptyString, EmptyString)
  end.

Definition head_sat (f : ascii -> bool) (s : string) : bool :=
  match s with String c _ => f c | EmptyString => false end.

(** Every character that [r] consumes satisfies [f]. *)
Fixpoint chars_ok (fl : flags) (f : ascii -> bool) (r : regex) : Prop :=
  match r with
  | Atom a | Rep a _ _ _ => forall x, atom_ok fl a x = true -> f x = true
  | Lits l => forall v, lits_ok fl l v = true -> Str.all f v = true
  | Cat r1 r2 | Alt r1 r2 => chars_ok fl f r1 /\ chars_ok fl f r2
  | Group _ r1 => chars_ok fl f r1
  | _ => True
  end.

(** A number of characters that every match of [r] consumes at least. *)
Fixpoint min_len (r : regex) : nat :=
  match r with
  | Atom _ => 1
  | Lits l => String.length l
  | Rep _ lo _ _ => lo
  | Cat r1 r2 => min_len r1 + min_len r2
  | Alt r1 r2 => Nat.min (min_len r1) (min_len r2)
  | Group _ r1 => min_len r1
  | _ => 0
  end.

(** Every group [n] of [r] captures a non-empty text of [f]-characters. *)
Fixpoint group_chars (fl : flags) (n : nat) (f : ascii -> bool) (r : regex) : Prop :=
  match r with
  | Cat r1 r2 | Alt r1 r2 => group_chars fl n f r1 /\ group_chars fl n f r2
  | Group k r1 =>
      group_chars fl n f r1
      /\ (k = n -> chars_ok fl f r1 /\ (1 <= min_len r1)%nat)
  | _ => True
  end.


Definition is_upper_digit_dash (c : ascii) : bool :=
  Char.between 65 90 c || Char.is_digit c || Char.eqb c "-".







(** Captures whose group [n], when bound, is a non-empty run of
    [f]-characters. *)
Definition good_group (n : nat) (f : ascii -> bool) (c : caps) : Prop :=
  forall v, lookup n c = Some v -> v <> "" /\ Str.all f v = true.

(** [norm_go s prev_space]: from here on [s] has no white space but
    single spaces, none of them first (when [prev_space]) or last. *)
Fixpoint norm_go (s : string) (prev_space : bool) : bool :=
  match s with
  | EmptyString => negb prev_space
  | String c s' =>
      if Char.is_space c
      then Char.eqb c " " && negb prev_space && norm_go s' true
      else norm_go s' false
  end.

(** A normalized line: empty, or a text that starts and ends with a
    character that is not white space and whose only white space is the
    single space, never two in a row. *)
Definition is_normalized (s : string) : bool :=
  Str.is_empty s || norm_go s true.

(** The line [s] starts with one of the column-header tokens NO., ITEM,
    EACH ORDERED (any white space between the two words), SHIP VIA or
    SO TYPE, in any casing. *)
Definition is_chrome (s : string) : Prop :=
  exists tok rest,
    s = tok +:+ rest
    /\ (Str.lower tok = "no." \/ Str.lower tok = "item"
        \/ (exists t1 ws t2,
              tok = t1 +:+ ws +:+ t2 /\ Str.lower t1 = "each" /\ ws <> ""
              /\ Str.all Char.is_space ws = true /\ Str.lower t2 = "ordered")
        \/ Str.lower tok = "ship via" \/ Str.lower tok = "so type").

(** An item of a full or short item line, with the SKU its pattern
    allows: not empty, upper-case letters, digits and hyphens only. *)
Definition material_item (it : LineItem) : Prop :=
  exists sku name q amount,
    it = item sku name q amount zero
    /\ sku <> "" /\ Str.all is_upper_digit_dash sku = true.

(** The exception the quantity of an item raises in [int(...)]. *)
Definition qty_error (it : LineItem) : option exn :=
  match qty it with
  | Some (NFloat (S754_infinity _)) => Some OverflowError
  | Some (NFloat S754_nan) => Some ValueError
  | _ => None
  end.

(** [r] begins with a line feed and a terminal marker of the table. *)
Definition begins_marker_line (r : string) : Prop :=
  exists mk post,
    r = String Char.LF (mk +:+ post)
    /\ (Str.lower mk = "thank you" \/ Str.lower mk = "sales total"
        \/ Str.lower mk = "freight total").

(** The end of the table pattern: a line feed and a terminal marker. *)
Definition re_marker_line : regex :=
  Atom (Lit Char.LF)
  +++ Alt (Lits "THANK YOU") (Alt (Lits "Sales Total") (Lits "Freight Total")).

End Props.

Import Props.

(* ================================================================== *)
(** * Facts about strings *)

Section StringFacts.

Lemma app_nil_s (s : string) : "" +:+ s = s.
Proof. reflexivity. Qed.

Lemma app_cons_s (c : ascii) (a s : string) :
  String c a +:+ s = String c (a +:+ s).
Proof. reflexivity. Qed.

Lemma app_empty_r (s : string) : s +:+ "" = s.
Proof. induction s; rewrite ?app_cons_s, ?app_nil_s; [done | by f_equal]. Qed.

Lemma app_assoc_s (a b c : string) : (a +:+ b) +:+ c = a +:+ (b +:+ c).
Proof. induction a; rewrite ?app_cons_s, ?app_nil_s; [done | by f_equal]. Qed.

Lemma length_app_s (a b : string) :
  String.length (a +:+ b) = (String.length a + String.length b)%nat.
Proof.
  induction a; rewrite ?app_cons_s, ?app_nil_s; simpl; [done | by f_equal].
Qed.

Lemma take_app (v s : string) : Str.take (String.length v) (v +:+ s) = v.
Proof.
  induction v; rewrite ?app_cons_s, ?app_nil_s; simpl;
    [by destruct s | by f_equal].
Qed.

Lemma consumed_app (v s : string) : consumed (v +:+ s) s = v.
Proof.
  unfold consumed. rewrite length_app_s.
  replace (String.length v + String.length s - String.length s)%nat
    with (String.length v) by lia.
  apply take_app.
Qed.

Lemma consumed_self (s : string) : consumed s s = "".
Proof. apply (consumed_app "" s). Qed.

Lemma end_prev_app (p : option ascii) (a b : string) :
  end_prev p (a +:+ b) = end_prev (end_prev p a) b.
Proof.
  revert p; induction a; intros p; rewrite ?app_cons_s, ?app_nil_s; simpl;
    [done | apply IHa].
Qed.

Lemma all_app (f : ascii -> bool) (a b : string) :
  Str.all f (a +:+ b) = Str.all f a && Str.all f b.
Proof.
  induction a; rewrite ?app_cons_s, ?app_nil_s; simpl;
    [done | by rewrite IHa, andb_assoc].
Qed.

End StringFacts.


(* ================================================================== *)
(** * The matcher against the declarative reading *)

Section MatcherFacts.
Variable fl : flags.
Context {A : Type}.

Lemma or_else_some (x y : option A) (res : A) :
  or_else x y = Some res -> x = Some res \/ (x = None /\ y = Some res).
Proof. destruct x; simpl; intros H; [left | right]; auto. Qed.

Lemma or_else_is_some_l (x y : option A) :
  is_Some x -> is_Some (or_else x y).
Proof. intros [r ->]. simpl. eauto. Qed.

Lemma or_else_is_some_r (x y : option A) :
  is_Some y -> is_Some (or_else x y).
Proof. intros [r ->]. destruct x; simpl; eauto. Qed.

Lemma lits_sound l : forall p s (k : option ascii -> string -> option A) res,
  lits fl l p s k = Some res ->
  exists v s', s = v +:+ s' /\ lits_ok fl l v = true
               /\ k (end_prev p v) s' = Some res.
Proof.
  induction l as [|c l IH]; intros p s k res H.
  - exists "", s. auto.
  - destruct s as [|x s]; [discriminate|].
    cbn [lits] in H.
    destruct (atom_ok fl (Lit c) x) eqn:E; [|discriminate].
    apply IH in H as (v & s' & -> & Hv & Hk).
    exists (String x v), s'. split; [done|].
    split; [|done]. cbn [lits_ok]. by rewrite E, Hv.
Qed.

Lemma lits_complete l : forall v p s' (k : option ascii -> string -> option A),
  lits_ok fl l v = true ->
  lits fl l p (v +:+ s') k = k (end_prev p v) s'.
Proof.
  induction l as [|c l IH]; intros [|x v] p s' k H; try discriminate.
  - reflexivity.
  - cbn [lits_ok] in H. apply andb_prop in H as [E Hv].
    rewrite app_cons_s. cbn [lits end_prev]. rewrite E. by apply IH.
Qed.

Lemma within_dec hi n :
  can_more hi = true -> within (dec hi) n -> within hi (S n).
Proof. destruct hi as [[|h]|]; simpl; try done. lia. Qed.

Lemma within_S hi n :
  within hi (S n) -> can_more hi = true /\ within (dec hi) n.
Proof. destruct hi as [[|h]|]; simpl; try done; lia. Qed.

Lemma rep_greedy_sound a s :
  forall lo hi p (k : option ascii -> string -> option A) res,
  rep_greedy fl a lo hi p s k = Some res ->
  exists v s', s = v +:+ s' /\ Str.all (atom_ok fl a) v = true
               /\ (lo <= String.length v)%nat /\ within hi (String.length v)
               /\ k (end_prev p v) s' = Some res.
Proof.
  assert (Hstop : forall lo hi p s0 (k : option ascii -> string -> option A) res,
             (if (lo =? 0)%nat then k p s0 else None) = Some res ->
             exists v s', s0 = v +:+ s' /\ Str.all (atom_ok fl a) v = true
               /\ (lo <= String.length v)%nat /\ within hi (String.length v)
               /\ k (end_prev p v) s' = Some res).
  { intros lo hi p s0 k res H. destruct (Nat.eqb_spec lo 0); [|discriminate].
    subst lo. exists "", s0. repeat split; auto.
    destruct hi; simpl; lia. }
  induction s as [|x s IH]; intros lo hi p k res H.
  - cbn [rep_greedy] in H. by apply Hstop.
  - cbn [rep_greedy] in H.
    destruct (atom_ok fl a x && can_more hi) eqn:E; [|by apply Hstop].
    apply andb_prop in E as [Ex Ehi].
    apply or_else_some in H as [H | [_ H]]; [|by apply Hstop].
    apply IH in H as (v & s' & -> & Hv & Hlo & Hhi & Hk).
    exists (String x v), s'. split; [done|].
    split; [cbn [Str.all]; by rewrite Ex, Hv|].
    split; [simpl; lia|]. split; [|done].
    simpl. by apply within_dec.
Qed.

Lemma rep_greedy_complete a v :
  forall lo hi p s' (k : option ascii -> string -> option A),
  Str.all (atom_ok fl a) v = true ->
  (lo <= String.length v)%nat -> within hi (String.length v) ->
  is_Some (k (end_prev p v) s') ->
  is_Some (rep_greedy fl a lo hi p (v +:+ s') k).
Proof.
  induction v as [|x v IH]; intros lo hi p s' k Hv Hlo Hhi Hk.
  - simpl in Hlo. assert (lo = 0%nat) as -> by lia.
    rewrite app_nil_s. simpl in Hk.
    destruct s' as [|y s']; cbn [rep_greedy]; [done|].
    destruct (atom_ok fl a y && can_more hi); [|done].
    by apply or_else_is_some_r.
  - rewrite app_cons_s. cbn [rep_greedy].
    cbn [Str.all] in Hv. apply andb_prop in Hv as [Ex Hv].
    simpl in Hhi. apply within_S in Hhi as [Ehi Hhi].
    rewrite Ex, Ehi. cbn [andb].
    apply or_else_is_some_l, IH; auto. simpl in Hlo. lia.
Qed.

Lemma rep_lazy_sound a s :
  forall lo hi p (k : option ascii -> string -> option A) res,
  rep_lazy fl a lo hi p s k = Some res ->
  exists v s', s = v +:+ s' /\ Str.all (atom_ok fl a) v = true
               /\ (lo <= String.length v)%nat /\ within hi (String.length v)
               /\ k (end_prev p v) s' = Some res.
Proof.
  induction s as [|x s IH]; intros lo hi p k res H.
  - cbn [rep_lazy] in H.
    destruct (Nat.eqb_spec lo 0); [|discriminate]. subst lo.
    apply or_else_some in H as [H | [_ H]]; [|discriminate].
    exists "", "". repeat split; auto. destruct hi; simpl; lia.
  - cbn [rep_lazy] in H.
    assert (Hmore : (if atom_ok fl a x && can_more hi
                     then rep_lazy fl a (Nat.pred lo) (dec hi) (Some x) s k
                     else None) = Some res ->
            exists v s', String x s = v +:+ s' /\ Str.all (atom_ok fl a) v = true
               /\ (lo <= String.length v)%nat /\ within hi (String.length v)
               /\ k (end_prev p v) s' = Some res).
    { intros H'. destruct (atom_ok fl a x && can_more hi) eqn:E; [|discriminate].
      apply andb_prop in E as [Ex Ehi].
      apply IH in H' as (v & s' & -> & Hv & Hlo & Hhi & Hk).
      exists (String x v), s'. split; [done|].
      split; [cbn [Str.all]; by rewrite Ex, Hv|].
      split; [simpl; lia|]. split; [|done].
      simpl. by apply within_dec. }
    destruct (Nat.eqb_spec lo 0); [|by apply Hmore]. subst lo.
    apply or_else_some in H as [H | [_ H]]; [|by apply Hmore].
    exists "", (String x s). repeat split; auto. destruct hi; simpl; lia.
Qed.

Lemma rep_lazy_complete a v :
  forall lo hi p s' (k : option ascii -> string -> option A),
  Str.all (atom_ok fl a) v = true ->
  (lo <= String.length v)%nat -> within hi (String.length v) ->
  is_Some (k (end_prev p v) s') ->
  is_Some (rep_lazy fl a lo hi p (v +:+ s') k).
Proof.
  induction v as [|x v IH]; intros lo hi p s' k Hv Hlo Hhi Hk.
  - simpl in Hlo. assert (lo = 0%nat) as -> by lia.
    rewrite app_nil_s. simpl in Hk.
    destruct s' as [|y s']; cbn [rep_lazy Nat.eqb];
      by apply or_else_is_some_l.
  - rewrite app_cons_s. cbn [rep_lazy].
    cbn [Str.all] in Hv. apply andb_prop in Hv as [Ex Hv].
    simpl in Hhi. apply within_S in Hhi as [Ehi Hhi].
    rewrite Ex, Ehi. cbn [andb].
    assert (is_Some (rep_lazy fl a (Nat.pred lo) (dec hi) (Some x) (v +:+ s') k))
      as Hrec by (apply IH; auto; simpl in Hlo; lia).
    destruct (lo =? 0)%nat; [by apply or_else_is_some_r | done].
Qed.

(** Soundness: a result of the matcher comes from a match, handed to the
    continuation. *)
Lemma run_sound r :
  forall p s c (k : option ascii -> string -> caps -> option A) res,
  run fl r p s c k = Some res ->
  exists p' s' c', matches fl r p s c p' s' c' /\ k p' s' c' = Some res.
Proof.
  induction r as [ | a | l | a lo hi g | r1 IH1 r2 IH2 | r1 IH1 r2 IH2
                   | n r IH | | | ]; intros p s c k res H; cbn [run] in H.
  - exists p, s, c. split; [constructor | done].
  - destruct s as [|x s]; [discriminate|].
    destruct (atom_ok fl a x) eqn:E; [|discriminate].
    exists (Some x), s, c. split; [by constructor | done].
  - apply lits_sound in H as (v & s' & -> & Hv & Hk).
    exists (end_prev p v), s', c. split; [by constructor | done].
  - destruct g.
    + apply rep_greedy_sound in H as (v & s' & -> & Hv & Hlo & Hhi & Hk).
      exists (end_prev p v), s', c. split; [by constructor | done].
    + apply rep_lazy_sound in H as (v & s' & -> & Hv & Hlo & Hhi & Hk).
      exists (end_prev p v), s', c. split; [by constructor | done].
  - apply IH1 in H as (p1 & s1 & c1 & M1 & H).
    apply IH2 in H as (p2 & s2 & c2 & M2 & H).
    exists p2, s2, c2. split; [by econstructor | done].
  - apply or_else_some in H as [H | [_ H]].
    + apply IH1 in H as (p' & s' & c' & M & H).
      exists p', s', c'. split; [by apply M_alt_l | done].
    + apply IH2 in H as (p' & s' & c' & M & H).
      exists p', s', c'. split; [by apply M_alt_r | done].
  - apply IH in H as (p' & s' & c' & M & H).
    exists p', s', ((n, consumed s s') :: c'). split; [by constructor | done].
  - destruct p; [discriminate|].
    exists None, s, c. split; [constructor | done].
  - destruct (at_end s) eqn:E; [|discriminate].
    exists p, s, c. split; [by constructor | done].
  - destruct (xorb (prev_is_word p) (head_is_word s)) eqn:E; [|discriminate].
    exists p, s, c. split; [by constructor | done].
Qed.

(** Completeness: where a match exists that the continuation accepts,
    the matcher finds a result (that one or one it tries earlier). *)
Lemma run_complete r p s c p' s' c' :
  matches fl r p s c p' s' c' ->
  forall (k : option ascii -> string -> caps -> option A),
  is_Some (k p' s' c') -> is_Some (run fl r p s c k).
Proof.
  induction 1 as [ p s c | a x p s c E | l v p s c Hv
                 | a lo hi g v p s c Hv Hlo Hhi
                 | r1 r2 p s c p1 s1 c1 p2 s2 c2 M1 IH1 M2 IH2
                 | r1 r2 p s c p' s' c' M IH | r1 r2 p s c p' s' c' M IH
                 | n r p s c p' s' c' M IH | s c | p s c E | p s c E ];
    intros k Hk; cbn [run].
  - done.
  - by rewrite E.
  - by rewrite lits_complete.
  - destruct g; [by apply rep_greedy_complete | by apply rep_lazy_complete].
  - apply IH1. by apply IH2.
  - apply or_else_is_some_l. by apply IH.
  - apply or_else_is_some_r. by apply IH.
  - by apply IH.
  - done.
  - by rewrite E.
  - by rewrite E.
Qed.

End MatcherFacts.

(* ================================================================== *)
(** * [re.search]: the leftmost position that has a match *)

Section SearchFacts.
Variable fl : flags.
Variable r : regex.

Lemma match_here_sound p s m :
  match_here fl r p s = Some m ->
  exists p' s' c', matches fl r p s [] p' s' c'
                   /\ m = {| whole := consumed s s'; groups := c' |}.
Proof.
  unfold match_here. intros H.
  apply run_sound in H as (p' & s' & c' & M & H).
  exists p', s', c'. split; [done | congruence].
Qed.

Lemma match_here_complete p s p' s' c' :
  matches fl r p s [] p' s' c' -> is_Some (match_here fl r p s).
Proof.
  intros M. unfold match_here.
  apply (run_complete fl r _ _ _ _ _ _ M). eauto.
Qed.

Lemma search_from_sound s : forall p m,
  search_from fl r p s = Some m ->
  exists pre rest,
    s = pre +:+ rest
    /\ (exists p' s' c', matches fl r (end_prev p pre) rest [] p' s' c'
                         /\ m = {| whole := consumed rest s'; groups := c' |})
    /\ (forall pre1 rest1 p' s' c',
           s = pre1 +:+ rest1 ->
           (String.length pre1 < String.length pre)%nat ->
           ~ matches fl r (end_prev p pre1) rest1 [] p' s' c').
Proof.
  induction s as [|x s IH]; intros p m H; cbn [search_from] in H.
  - apply or_else_some in H as [H | [_ H]]; [|discriminate].
    exists "", "". split; [done|].
    split; [by apply match_here_sound|].
    intros ? ? ? ? ? _ Hlt. simpl in Hlt. lia.
  - apply or_else_some in H as [H | [Hnone H]].
    + exists "", (String x s). split; [done|].
      split; [by apply match_here_sound|].
      intros ? ? ? ? ? _ Hlt. simpl in Hlt. lia.
    + apply IH in H as (pre & rest & -> & Hm & Hleft).
      exists (String x pre), rest. split; [done|]. split; [done|].
      intros pre1 rest1 p' s' c' Heq Hlt M.
      destruct pre1 as [|y pre1].
      * rewrite app_nil_s in Heq. subst rest1. simpl in M.
        apply match_here_complete in M as [? M]. congruence.
      * rewrite !app_cons_s in Heq. injection Heq as -> Heq.
        apply (Hleft pre1 rest1 p' s' c' Heq); [simpl in Hlt; lia | done].
Qed.

Lemma search_from_complete pre : forall rest p p' s' c',
  matches fl r (end_prev p pre) rest [] p' s' c' ->
  is_Some (search_from fl r p (pre +:+ rest)).
Proof.
  induction pre as [|x pre IH]; intros rest p p' s' c' M.
  - rewrite app_nil_s. simpl in M.
    apply match_here_complete in M.
    destruct rest; cbn [search_from]; by apply or_else_is_some_l.
  - rewrite app_cons_s. cbn [search_from].
    apply or_else_is_some_r. by eapply IH.
Qed.

(** [re.search] answers with a match at the leftmost position of the
    text that has one. *)
Lemma search_sound text m :
  search fl r text = Some m ->
  exists pre rest,
    text = pre +:+ rest /\ matches_at fl r pre rest m
    /\ (forall pre1 rest1 m1,
           text = pre1 +:+ rest1 ->
           (String.length pre1 < String.length pre)%nat ->
           ~ matches_at fl r pre1 rest1 m1).
Proof.
  intros H. apply search_from_sound in H as (pre & rest & -> & Hm & Hleft).
  exists pre, rest. split; [done|]. split; [exact Hm|].
  intros pre1 rest1 m1 Heq Hlt (p' & s' & c' & M & _).
  by apply (Hleft pre1 rest1 p' s' c').
Qed.

(** ... and answers [None] only when no position has a match. *)
Lemma search_complete pre rest m :
  matches_at fl r pre rest m -> is_Some (search fl r (pre +:+ rest)).
Proof.
  intros (p' & s' & c' & M & _). by eapply search_from_complete.
Qed.

Lemma search_none_iff text :
  search fl r text = None <->
  (forall pre rest m, text = pre +:+ rest -> ~ matches_at fl r pre rest m).
Proof.
  split.
  - intros Hn pre rest m -> Hm.
    apply search_complete in Hm as [? Hm]. congruence.
  - intros H. destruct (search fl r text) eqn:E; [|done].
    apply search_sound in E as (pre & rest & Heq & Hm & _).
    by destruct (H pre rest r0 Heq).
Qed.

End SearchFacts.

(** ** Groups that always take part *)

Lemma lookup_cons_is_some n k v c :
  is_Some (lookup n c) -> is_Some (lookup n ((k, v) :: c)).
Proof. simpl. destruct (k =? n)%nat; eauto. Qed.

Lemma matches_binds fl r p s c p' s' c' :
  matches fl r p s c p' s' c' ->
  (forall n, In n (binds r) -> is_Some (lookup n c'))
  /\ (forall n, is_Some (lookup n c) -> is_Some (lookup n c')).
Proof.
  induction 1 as [ | | | | r1 r2 p s c p1 s1 c1 p2 s2 c2 M1 [IH1 K1] M2 [IH2 K2]
                 | r1 r2 p s c p' s' c' M [IH K] | r1 r2 p s c p' s' c' M [IH K]
                 | n r p s c p' s' c' M [IH K] | | | ];
    cbn [binds]; try (split; [intros ? [] | auto]; fail).
  - split.
    + intros n Hn. apply in_app_or in Hn as [Hn | Hn]; auto.
    + auto.
  - split.
    + intros m [-> | Hm].
      * simpl. rewrite Nat.eqb_refl. eauto.
      * by apply lookup_cons_is_some, IH.
    + intros m Hm. by apply lookup_cons_is_some, K.
Qed.

(** Every group that [binds] lists is set in every match [re.search]
    returns, so [group] never falls back on its default. *)
Lemma binds_spec fl r text m n :
  search fl r text = Some m -> In n (binds r) ->
  lookup n (groups m) = Some (group m n).
Proof.
  intros H Hn. apply search_sound in H as (pre & rest & _ & Hm & _).
  destruct Hm as (p' & s' & c' & M & ->).
  apply matches_binds in M as [Hb _].
  destruct (Hb n Hn) as [v Hv]. unfold group. simpl. by rewrite Hv.
Qed.

(* ================================================================== *)
(** * [to_craftybase_rows]: one row per item, built by [make_row] *)

Lemma rows_loop_spec meta notes items : forall rows out,
  rows_loop meta notes items rows = Ok out ->
  exists new, out = rows ++ new
              /\ Forall2 (fun it row => make_row meta notes it = Ok row) items new.
Proof.
  induction items as [|it items IH]; intros rows out H; cbn [rows_loop] in H.
  - injection H as <-. exists []. split; [by rewrite app_nil_r | constructor].
  - destruct (make_row meta notes it) as [line|e] eqn:E; [|discriminate].
    cbn [bind] in H. apply IH in H as (new & -> & Hall).
    exists (line :: new). split; [by rewrite <- app_assoc | by constructor].
Qed.

Lemma rows_spec meta items rows :
  to_craftybase_rows meta items = Ok rows ->
  Forall2 (fun it row => make_row meta (make_notes meta) it = Ok row) items rows.
Proof.
  intros H. apply rows_loop_spec in H as (new & -> & Hall). exact Hall.
Qed.

Lemma rows_at meta pre it post rows :
  to_craftybase_rows meta (pre ++ it :: post) = Ok rows ->
  exists row, rows !! length pre = Some row
              /\ make_row meta (make_notes meta) it = Ok row.
Proof.
  intros H. apply rows_spec in H.
  apply Forall2_app_inv_l in H as (r1 & r2 & H1 & H2 & ->).
  inversion H2 as [|? row ? r2' Hrow Hrest]; subst.
  exists row. split; [|done].
  rewrite lookup_app_r; rewrite (Forall2_length _ _ _ H1); [|lia].
  by rewrite Nat.sub_diag.
Qed.

Lemma make_row_inv meta notes it row :
  make_row meta notes it = Ok row ->
  int_of_num (qty_or_1 (qty it)) = Ok (line_item_quantity row)
  /\ line_item_category_id row
     = (if is_freight it then "Shipping" else "Materials")
  /\ line_item_price row
     = (if is_freight it then zero else round2 (float_or_0 (price_subtotal it)))
  /\ row_shipping row = round2 (float_or_0 (shipping it))
  /\ grand_total row
     = round2 (add (float_or_0 (price_subtotal it)) (float_or_0 (shipping it))).
Proof.
  unfold make_row. destruct (int_of_num (qty_or_1 (qty it))) as [q|e]; [|discriminate].
  cbn [bind]. intros H. injection H as <-. cbn. auto.
Qed.

(** ** Numbers *)

Lemma same_number_refl x : same_number x x.
Proof. by left. Qed.

Lemma round2_same x y : same_number x y -> same_number (round2 x) (round2 y).
Proof.
  intros [-> | (s & t & -> & ->)]; [by left|]. right. by exists s, t.
Qed.

Lemma float_or_0_same x : same_number (float_or_0 (Some x)) x.
Proof.
  destruct x; cbn; try by left. right. by eexists _, _.
Qed.

(** Replacing a zero operand by [0.0] changes a sum at most in the sign
    of a zero result. *)
Lemma add_or_0_same p s :
  same_number (add (float_or_0 (Some p)) (float_or_0 (Some s))) (add p s).
Proof.
  destruct p as [sp|sp| |sp mp ep], s as [ss|ss| |ss ms es]; cbn;
    try (by left).
  destruct sp, ss; right; by eexists _, _.
Qed.

Lemma shiftl_neg_quot (m : positive) (e : Z) :
  e < 0 -> Z.shiftl (Zpos m) e = Z.quot (Zpos m) (2 ^ (- e)).
Proof.
  intros He. rewrite <- (Z.opp_involutive e) at 1.
  rewrite Z.shiftl_opp_r, Z.shiftr_div_pow2 by lia.
  symmetry. apply Z.quot_div_nonneg; [lia|].
  apply Z.pow_pos_nonneg; lia.
Qed.

(** [int] of a finite float is the integral part of its exact value. *)
Lemma int_of_float_trunc s m e :
  int_of_float (S754_finite s m e) = Ok (Qtrunc (to_Q (S754_finite s m e))).
Proof.
  unfold int_of_float, Qtrunc, to_Q. f_equal.
  destruct (Z.leb_spec 0 e) as [He|He].
  - cbn [inject_Z Qnum Qden]. rewrite Z.quot_1_r.
    rewrite Z.shiftl_mul_pow2 by done. by destruct s.
  - cbn [Qnum Qden].
    assert (0 < 2 ^ (- e)) as Hpos by (apply Z.pow_pos_nonneg; lia).
    rewrite Z2Pos.id by done.
    rewrite shiftl_neg_quot by done.
    destruct s; cbn [cond_Zopp]; [|done].
    rewrite Z.quot_opp_l; [done | lia].
Qed.

Lemma non_integer_finite x :
  non_integer x -> exists s m e, x = S754_finite s m e.
Proof.
  intros [Hf Hn]. destruct x as [s|s| |s m e]; try discriminate; [|eauto].
  exfalso. apply Hn. reflexivity.
Qed.

(** ** Substrings *)

Lemma is_empty_spec s : Str.is_empty s = true <-> s = "".
Proof. by destruct s. Qed.

Lemma starts_with_spec p : forall s,
  Str.starts_with p s = true <-> exists post, s = p +:+ post.
Proof.
  induction p as [|a p IH]; intros s.
  - split; [intros _; by exists s | done].
  - destruct s as [|b s]; cbn [Str.starts_with].
    + split; [done | intros [post H]; by rewrite app_cons_s in H].
    + rewrite andb_true_iff, IH. unfold Char.eqb. rewrite Ascii.eqb_eq.
      split.
      * intros [-> [post ->]]. by exists post.
      * intros [post H]. rewrite app_cons_s in H. injection H as -> ->. eauto.
Qed.

Lemma contains_spec p s :
  Str.contains p s = true <-> exists pre post, s = pre +:+ p +:+ post.
Proof.
  induction s as [|c s IH]; cbn [Str.contains]; rewrite orb_true_iff.
  - split.
    + intros [H | H]; [|done]. apply starts_with_spec in H as [post H].
      by exists "", post.
    + intros (pre & post & H). left. apply starts_with_spec.
      destruct pre; [by exists post | by rewrite app_cons_s in H].
  - split.
    + intros [H | H].
      * apply starts_with_spec in H as [post H]. by exists "", post.
      * apply IH in H as (pre & post & ->). by exists (String c pre), post.
    + intros (pre & post & H). destruct pre as [|c' pre].
      * left. apply starts_with_spec. by exists post.
      * right. rewrite app_cons_s in H. injection H as -> ->.
        apply IH. eauto.
Qed.

(** The freight test of [to_craftybase_rows], in words: no SKU and a
    name that holds "freight" in some casing. *)
Lemma is_freight_spec it :
  is_freight it = true <->
  get_str (sku it) = ""
  /\ exists pre post, Str.lower (get_str (name it)) = pre +:+ "freight" +:+ post.
Proof.
  unfold is_freight. by rewrite andb_true_iff, is_empty_spec, contains_spec.
Qed.

(* ================================================================== *)
(** * Properties of [to_craftybase_rows] *)

(** C4. In every row that [to_craftybase_rows] produces, [grand_total] is
    [round(price_subtotal + shipping, 2)] computed from the item's own,
    unrounded [price_subtotal] and [shipping]; the two agree as numbers
    (at most the sign of a zero differs, since the code replaces a zero
    operand by [0.0]). *)
Theorem grand_total_from_raw_values meta items rows :
  to_craftybase_rows meta items = Ok rows ->
  Forall2 (fun it row =>
             forall p s, price_subtotal it = Some p -> shipping it = Some s ->
                         same_number (grand_total row) (round2 (add p s)))
          items rows.
Proof.
  intros H. apply rows_spec in H.
  induction H as [|it row items rows Hrow _ IH]; constructor; [|exact IH].
  intros p s Hp Hs. apply make_row_inv in Hrow as (_ & _ & _ & _ & ->).
  rewrite Hp, Hs. apply round2_same, add_or_0_same.
Qed.

Lemma grand_total_from_raw_values_witness :
  Forall2 (fun it row =>
             forall p s, price_subtotal it = Some p -> shipping it = Some s ->
                         same_number (grand_total row) (round2 (add p s)))
          [brass_item; freight_item]
          [row_of brass_item 2 "Materials" f7_5 zero f7_5;
           row_of freight_item 1 "Shipping" zero f12_34 f12_34].
Proof.
  apply (grand_total_from_raw_values ∅). vm_compute. reflexivity.
Defined.

(** C6. In every row that [to_craftybase_rows] produces, the category is
    "Shipping" exactly when the item has an empty SKU and a name that
    holds "freight" in some casing, and "Materials" otherwise; a Shipping
    row has [line_item_price] 0.0 whatever the item's [price_subtotal];
    and the row's shipping is the item's shipping, rounded, whatever the
    category. *)
Theorem category_price_and_shipping meta items rows :
  to_craftybase_rows meta items = Ok rows ->
  Forall2 (fun it row =>
             (line_item_category_id row = "Shipping" <->
              get_str (sku it) = ""
              /\ exists pre post,
                   Str.lower (get_str (name it)) = pre +:+ "freight" +:+ post)
             /\ (line_item_category_id row <> "Shipping" ->
                 line_item_category_id row = "Materials")
             /\ (line_item_category_id row = "Shipping" ->
                 line_item_price row = zero)
             /\ (forall x, shipping it = Some x ->
                           same_number (row_shipping row) (round2 x)))
          items rows.
Proof.
  intros H. apply rows_spec in H.
  induction H as [|it row items rows Hrow _ IH]; constructor; [|exact IH].
  apply make_row_inv in Hrow as (_ & Hcat & Hprice & Hship & _).
  rewrite <- is_freight_spec, Hcat, Hprice, Hship.
  destruct (is_freight it); repeat split; try done.
  all: intros x ->; apply round2_same, float_or_0_same.
Qed.

Lemma category_price_and_shipping_witness :
  Forall2 (fun it row =>
             (line_item_category_id row = "Shipping" <->
              get_str (sku it) = ""
              /\ exists pre post,
                   Str.lower (get_str (name it)) = pre +:+ "freight" +:+ post)
             /\ (line_item_category_id row <> "Shipping" ->
                 line_item_category_id row = "Materials")
             /\ (line_item_category_id row = "Shipping" ->
                 line_item_price row = zero)
             /\ (forall x, shipping it = Some x ->
                           same_number (row_shipping row) (round2 x)))
          [brass_item; freight_item;
           item "" "Air FREIGHT surcharge" (NInt 2) f7_5 f2_5]
          [row_of brass_item 2 "Materials" f7_5 zero f7_5;
           row_of freight_item 1 "Shipping" zero f12_34 f12_34;
           row_of (item "" "Air FREIGHT surcharge" (NInt 2) f7_5 f2_5)
                  2 "Shipping" zero f2_5 (S754_finite false 5629499534213120 (-49))].
Proof.
  apply (category_price_and_shipping ∅). vm_compute. reflexivity.
Defined.

(** C9. For an item whose quantity is a float with a fractional part,
    [to_craftybase_rows] builds the row and sets [line_item_quantity] to
    the integral part of the quantity, towards zero (2.7 gives 2). *)
Theorem quantity_is_truncated meta it x :
  qty it = Some (NFloat x) -> non_integer x ->
  (exists row, make_row meta (make_notes meta) it = Ok row
               /\ line_item_quantity row = Qtrunc (to_Q x))
  /\ (forall pre post rows,
         to_craftybase_rows meta (pre ++ it :: post) = Ok rows ->
         exists row, rows !! length pre = Some row
                     /\ line_item_quantity row = Qtrunc (to_Q x)).
Proof.
  intros Hq Hx. destruct (non_integer_finite x Hx) as (s & m & e & ->).
  assert (Hint : int_of_num (qty_or_1 (qty it))
                 = Ok (Qtrunc (to_Q (S754_finite s m e)))).
  { rewrite Hq. cbn [qty_or_1 num_truthy truthy int_of_num].
    apply int_of_float_trunc. }
  split.
  - unfold make_row. rewrite Hint. cbn [bind]. eexists. split; [reflexivity|]. done.
  - intros pre post rows H. apply rows_at in H as (row & Hrow & Hmk).
    exists row. split; [done|].
    apply make_row_inv in Hmk as (Hq' & _). congruence.
Qed.

Lemma quantity_is_truncated_witness :
  non_integer f2_7 /\ Qtrunc (to_Q f2_7) = 2
  /\ exists row,
       make_row ∅ (make_notes ∅)
                (item "BR-100" "Brass Collar" (NFloat f2_7) f7_5 zero) = Ok row
       /\ line_item_quantity row = Qtrunc (to_Q f2_7).
Proof.
  assert (Hn : non_integer f2_7).
  { split; [reflexivity|]. vm_compute. intros H. discriminate H. }
  split; [exact Hn|]. split; [reflexivity|].
  exact (proj1 (quantity_is_truncated
                  ∅ (item "BR-100" "Brass Collar" (NFloat f2_7) f7_5 zero)
                  f2_7 eq_refl Hn)).
Defined.

(** C10. For an item whose quantity is [0], [0.0] or missing,
    [to_craftybase_rows] builds the row with [line_item_quantity] 1: a
    falsy quantity is replaced by 1 before the conversion to [int]. *)
Theorem falsy_quantity_becomes_one meta it :
  falsy_qty (qty it) ->
  (exists row, make_row meta (make_notes meta) it = Ok row
               /\ line_item_quantity row = 1)
  /\ (forall pre post rows,
         to_craftybase_rows meta (pre ++ it :: post) = Ok rows ->
         exists row, rows !! length pre = Some row
                     /\ line_item_quantity row = 1).
Proof.
  intros Hq.
  assert (Hint : int_of_num (qty_or_1 (qty it)) = Ok 1).
  { destruct Hq as [-> | [-> | [s ->]]]; reflexivity. }
  split.
  - unfold make_row. rewrite Hint. cbn [bind]. eexists. split; [reflexivity|]. done.
  - intros pre post rows H. apply rows_at in H as (row & Hrow & Hmk).
    exists row. split; [done|].
    apply make_row_inv in Hmk as (Hq' & _). congruence.
Qed.

Lemma falsy_quantity_becomes_one_witness :
  Forall (fun q =>
            exists row,
              make_row ∅ (make_notes ∅)
                       {| sku := Some "AB"; name := Some "Widget"; qty := q;
                          price_subtotal := Some f7_5; shipping := Some zero |}
              = Ok row
              /\ line_item_quantity row = 1)
         [None; Some (NInt 0); Some (NFloat (S754_zero false));
          Some (NFloat (S754_zero true))].
Proof.
  repeat constructor.
  - apply (falsy_quantity_becomes_one ∅). left. reflexivity.
  - apply (falsy_quantity_becomes_one ∅). right. left. reflexivity.
  - apply (falsy_quantity_becomes_one ∅). right. right. eexists. reflexivity.
  - apply (falsy_quantity_becomes_one ∅). right. right. eexists. reflexivity.
Defined.

(* ================================================================== *)
(** * [parse_lines]: the loop and its invariant *)

Lemma parse_line_appends raw lines :
  parse_line raw lines = do here <- line_items raw; Ok (lines ++ here).
Proof.
  unfold line_items, parse_line.
  destruct (Str.is_empty (clean raw)); [cbn; by rewrite app_nil_r|].
  destruct (is_match (search IGNORECASE re_chrome (clean raw)));
    [cbn; by rewrite app_nil_r|].
  destruct (is_match (search IGNORECASE re_freight (clean raw))).
  { destruct (search no_flags re_trailing_amount (clean raw)) as [m|]; [|done].
    by destruct (float_of_string (group m 1)). }
  destruct (search no_flags re_full_item (clean raw)) as [m|].
  - destruct (negb (Str.is_empty (group m 3))).
    + destruct (float_of_string (group m 3)); [|done]. cbn [bind].
      destruct (negb (Str.is_empty (group m 7))); [|done].
      by destruct (float_of_string (Str.remove_char "," (group m 7))).
    + cbn [bind].
      destruct (negb (Str.is_empty (group m 7))); [|done].
      by destruct (float_of_string (Str.remove_char "," (group m 7))).
  - destruct (search no_flags re_short_item (clean raw)); [done|].
    cbn. by rewrite app_nil_r.
Qed.

Lemma parse_loop_scan raws : forall lines,
  parse_loop raws lines = do found <- scan raws; Ok (lines ++ found).
Proof.
  induction raws as [|raw raws IH]; intros lines; cbn [parse_loop scan].
  - cbn. by rewrite app_nil_r.
  - rewrite parse_line_appends.
    destruct (line_items raw) as [here|e]; [|done]. cbn [bind].
    rewrite IH. destruct (scan raws) as [rest|e]; [|done]. cbn [bind].
    by rewrite app_assoc.
Qed.

(** [parse_lines] is the per-line classification applied to every line
    of the block. *)
Lemma parse_lines_scan text :
  parse_lines text = scan (Str.splitlines (table_block text)).
Proof.
  unfold parse_lines. rewrite parse_loop_scan.
  by destruct (scan (Str.splitlines (table_block text))).
Qed.

Lemma line_items_one_sided raw here :
  line_items raw = Ok here -> Forall one_sided here.
Proof.
  unfold line_items, parse_line.
  destruct (Str.is_empty (clean raw)); [intros [= <-]; constructor|].
  destruct (is_match (search IGNORECASE re_chrome (clean raw)));
    [intros [= <-]; constructor|].
  destruct (is_match (search IGNORECASE re_freight (clean raw))).
  { destruct (match search no_flags re_trailing_amount (clean raw) with
              | Some m => float_of_string (group m 1)
              | None => Ok zero
              end) as [ship|]; [|discriminate].
    intros [= <-]. constructor; [|constructor].
    left. split; [by exists ship | done]. }
  destruct (search no_flags re_full_item (clean raw)) as [m|].
  - destruct (if negb (Str.is_empty (group m 3))
              then do x <- float_of_string (group m 3); Ok (NFloat x)
              else Ok (NInt 1)) as [q|]; [|discriminate].
    cbn [bind].
    destruct (if negb (Str.is_empty (group m 7))
              then float_of_string (Str.remove_char "," (group m 7))
              else Ok zero) as [a|]; [|discriminate].
    intros [= <-]. constructor; [|constructor].
    right. split; [by eexists _, _, _, _ | done].
  - destruct (search no_flags re_short_item (clean raw)).
    + intros [= <-]. constructor; [|constructor].
      right. split; [by eexists _, _, _, _ | done].
    + intros [= <-]. constructor.
Qed.

Lemma scan_one_sided raws : forall items,
  scan raws = Ok items -> Forall one_sided items.
Proof.
  induction raws as [|raw raws IH]; intros items; cbn [scan].
  - intros [= <-]. constructor.
  - destruct (line_items raw) as [here|] eqn:E; [|discriminate]. cbn [bind].
    destruct (scan raws) as [rest|]; [|discriminate]. cbn [bind].
    intros [= <-]. apply Forall_app. split; [by eapply line_items_one_sided | by apply IH].
Qed.

(* ================================================================== *)
(** * Properties of [parse_lines] *)

(** C8. Every item in the sequence [parse_lines] returns has
    [price_subtotal] 0.0 or [shipping] 0.0: it is a freight item, whose
    [price_subtotal] is 0.0, or the item of a full or short item line,
    whose [shipping] is 0.0. *)
Theorem items_are_one_sided text items :
  parse_lines text = Ok items ->
  Forall (fun it =>
            one_sided it
            /\ (price_subtotal it = Some zero \/ shipping it = Some zero))
         items.
Proof.
  rewrite parse_lines_scan. intros H. apply scan_one_sided in H.
  eapply Forall_impl; [exact H|].
  intros it Hit. split; [exact Hit|].
  destruct Hit as [[_ Hp] | [_ Hs]]; auto.
Qed.

Lemma items_are_one_sided_witness :
  Forall (fun it =>
            one_sided it
            /\ (price_subtotal it = Some zero \/ shipping it = Some zero))
         [brass_item; freight_item].
Proof.
  apply (items_are_one_sided (brass_line +:+ String Char.LF freight_line)).
  vm_compute. reflexivity.
Defined.

(** C7. When [re.search] finds no table region in the text (no header
    row NO. ITEM ... AMOUNT followed by a line starting one of the
    terminal markers), [parse_lines] applies its per-line classification
    to every line of the whole text. *)
Theorem no_table_scans_whole_text text :
  search DOTALL_IGNORECASE re_table text = None ->
  parse_lines text = scan (Str.splitlines text).
Proof.
  intros H. rewrite parse_lines_scan. unfold table_block. by rewrite H.
Qed.

Lemma no_table_scans_whole_text_witness :
  parse_lines (brass_line +:+ String Char.LF freight_line)
  = scan [brass_line; freight_line]
  /\ scan [brass_line; freight_line] = Ok [brass_item; freight_item].
Proof.
  split; [|vm_compute; reflexivity].
  apply (no_table_scans_whole_text (brass_line +:+ String Char.LF freight_line)).
  vm_compute. reflexivity.
Defined.

(** C1. The table line
    "12 BR-100: Brass Collar EACH 2.50 2.50 0.00 3 7.50" gives exactly
    one item, with SKU "BR-100", name "Brass Collar", [price_subtotal]
    7.5, [shipping] 0.0 and quantity 2.5: the quantity is read from the
    first number after EACH (group 3 of the pattern), not from the "3". *)
Theorem brass_line_item :
  parse_lines brass_line
  = Ok [item "BR-100" "Brass Collar" (NFloat f2_5) f7_5 zero]
  /\ (to_Q f2_5 == 5 # 2)%Q /\ (to_Q f7_5 == 15 # 2)%Q.
Proof. split; [vm_compute; reflexivity | split; vm_compute; reflexivity]. Qed.

(** C1 as stated fails: the same line does not give an item of quantity
    3, be it the [int] 3 or the float 3.0. *)
Lemma brass_line_quantity_is_not_3 :
  ~ exists q,
      parse_lines brass_line = Ok [item "BR-100" "Brass Collar" q f7_5 zero]
      /\ num_is q 3.
Proof.
  intros (q & H & Hq).
  assert (parse_lines brass_line = Ok [brass_item]) as E
      by (vm_compute; reflexivity).
  rewrite E in H. clear E. injection H as <-.
  destruct Hq as [Hq | (x & Hq & _ & Hx)]; [discriminate Hq|].
  injection Hq as <-. vm_compute in Hx. discriminate Hx.
Qed.

(** C2 fails on the code: on a full-item line, a quantity field or an
    amount field that is not a number makes [parse_lines] raise
    [ValueError]; only the short-item path catches the error. *)
Theorem full_item_line_raises :
  parse_lines bad_qty_line = Raise ValueError
  /\ parse_lines bad_amount_line = Raise ValueError
  /\ (exists m, search no_flags re_full_item bad_qty_line = Some m
                /\ group m 3 = "1.2.3")
  /\ (exists m, search no_flags re_full_item bad_amount_line = Some m
                /\ group m 7 = "1.2.3").
Proof.
  split; [vm_compute; reflexivity|]. split; [vm_compute; reflexivity|].
  split; eexists; (split; [vm_compute; reflexivity | reflexivity]).
Qed.

(** On the short-item path the same kind of field gives amount 0.0. *)
Lemma short_item_line_defaults :
  parse_lines "3 AB-1: Widget 2.00 1.2.3"
  = Ok [item "AB-1" "Widget" (NInt 1) zero zero].
Proof. vm_compute. reflexivity. Qed.

(* ================================================================== *)
(** * Properties of [parse_header] *)

Lemma set_group1_lookup key m (hdr : gmap string string) k :
  set_group1 key m hdr !! k
  = match m with
    | Some m' => if decide (key = k) then Some (group m' 1) else hdr !! k
    | None => hdr !! k
    end.
Proof.
  destruct m as [m'|]; cbn [set_group1]; [|done].
  case_decide as E; [subst; apply lookup_insert_eq | by apply lookup_insert_ne].
Qed.

Lemma group1_search fl r text :
  In 1%nat (binds r) ->
  group1 (search fl r text) = (fun m => group m 1) <$> search fl r text.
Proof.
  intros Hb. destruct (search fl r text) as [m|] eqn:E; [|done].
  cbn. by apply binds_spec with (n := 1%nat) in E.
Qed.


Lemma group1_or_else fl1 r1 fl2 r2 text :
  In 1%nat (binds r1) -> In 1%nat (binds r2) ->
  group1 (or_else (search fl1 r1 text) (search fl2 r2 text))
  = (fun m => group m 1) <$> or_else (search fl1 r1 text) (search fl2 r2 text).
Proof.
  intros H1 H2. destruct (search fl1 r1 text) as [m|] eqn:E; cbn [or_else].
  - cbn. by apply binds_spec with (n := 1%nat) in E.
  - by apply group1_search.
Qed.

Ltac split_decides :=
  repeat (case_decide; try discriminate; try congruence).

Ltac split_searches text :=
  repeat match goal with
         | |- context [search ?f ?r text] => destruct (search f r text)
         end.

Lemma parse_header_lookup text key :
  parse_header text !! key = group1 (header_search key text).
Proof.
  unfold parse_header, header_search.
  rewrite !set_group1_lookup, lookup_empty.
  destruct (decide (key = "invoice_no")) as [->|N1].
  { rewrite group1_search by (cbn; auto).
    split_decides; split_searches text; reflexivity. }
  destruct (decide (key = "purchase_date")) as [->|N2].
  { rewrite group1_search by (cbn; auto).
    split_decides; split_searches text; reflexivity. }
  destruct (decide (key = "so_number")) as [->|N3].
  { rewrite group1_search by (cbn; auto).
    split_decides; split_searches text; reflexivity. }
  destruct (decide (key = "shipment_number")) as [->|N4].
  { rewrite group1_search by (cbn; auto).
    split_decides; split_searches text; reflexivity. }
  destruct (decide (key = "tracking")) as [->|N5].
  { rewrite group1_or_else by (cbn; auto).
    split_decides; split_searches text; reflexivity. }
  split_decides; split_searches text; reflexivity.
Qed.

Lemma group1_is_some fl r text :
  In 1%nat (binds r) ->
  is_Some (group1 (search fl r text)) <-> is_Some (search fl r text).
Proof.
  intros Hb. rewrite group1_search by done.
  destruct (search fl r text); cbn; split; intros [? ?]; try discriminate; eauto.
Qed.

(** C3. For every text and every key, the record [parse_header] returns
    holds the key exactly when the search for the key's label pattern
    finds a match, bound to group 1 of that (leftmost) match; no key
    outside the five header keys is ever present. *)
Theorem header_keys_follow_matches text key :
  parse_header text !! key = group1 (header_search key text)
  /\ (is_Some (parse_header text !! key) <-> is_Some (header_search key text))
  /\ (key ∉ header_keys -> parse_header text !! key = None).
Proof.
  split; [apply parse_header_lookup|]. rewrite parse_header_lookup. split.
  - unfold header_search.
    repeat case_decide;
      try (apply group1_is_some; cbn; auto; fail).
    + rewrite group1_or_else by (cbn; auto).
      destruct (or_else _ _); cbn; split; intros [? ?]; try discriminate; eauto.
    + cbn. split; intros [? ?]; discriminate.
  - intros Hk. unfold header_search.
    repeat case_decide; subst; try reflexivity;
      exfalso; apply Hk; unfold header_keys; set_solver.
Qed.

Lemma header_keys_follow_matches_witness :
  parse_header header_text !! "invoice_no" = Some "ABC-123"
  /\ parse_header header_text !! "vendor" = None.
Proof.
  split.
  - rewrite (proj1 (header_keys_follow_matches header_text "invoice_no")).
    vm_compute. reflexivity.
  - apply (proj2 (proj2 (header_keys_follow_matches header_text "vendor"))).
    apply (bool_decide_unpack ("vendor" ∉ header_keys)). vm_compute. exact I.
Defined.

(** The scenario of the specification: two labelled fields, two keys. *)
Example header_scenario :
  parse_header header_text
  = {[ "invoice_no" := "ABC-123"; "purchase_date" := "4/5/2024" ]}.
Proof. vm_compute. reflexivity. Qed.

(* ================================================================== *)
(** * Freight lines *)

(** ** The trailing amount *)

Lemma digit09_ok x : atom_ok no_flags digit09 x = Char.is_digit x.
Proof.
  unfold atom_ok, digit09, in_set, Char.is_digit. cbn [existsb member_ok ignorecase no_flags andb].
  rewrite !orb_false_r. reflexivity.
Qed.

Lemma all_digit09 v :
  Str.all (atom_ok no_flags digit09) v = Str.all Char.is_digit v.
Proof. induction v; cbn [Str.all]; [done | by rewrite digit09_ok, IHv]. Qed.

Lemma space_ok fl x : atom_ok fl Space x = Char.is_space x.
Proof. reflexivity. Qed.

Lemma at_end_space s : at_end s = true -> Str.all Char.is_space s = true.
Proof.
  destruct s as [|c [|d s]]; cbn; try done.
  unfold Char.eqb. intros H. apply Ascii.eqb_eq in H as ->. reflexivity.
Qed.

Lemma length_2 (v : string) :
  (2 <= String.length v)%nat -> (String.length v <= 2)%nat ->
  exists d1 d2, v = String d1 (String d2 "").
Proof.
  destruct v as [|d1 [|d2 [|d3 v]]]; cbn; intros; try lia. eauto.
Qed.

Lemma trailing_amount_inv p rest p' s' c' :
  matches no_flags re_trailing_amount p rest [] p' s' c' ->
  exists ds d1 d2 ws,
    rest = (ds +:+ String "." (String d1 (String d2 ""))) +:+ ws
    /\ ds <> "" /\ Str.all Char.is_digit ds = true
    /\ Char.is_digit d1 = true /\ Char.is_digit d2 = true
    /\ Str.all Char.is_space ws = true
    /\ c' = [(1%nat, ds +:+ String "." (String d1 (String d2 "")))].
Proof.
  unfold re_trailing_amount, plus, times, star. intros H.
  inversion H as [ | | | | ? ? ? ? ? p1 s1 c1 ? ? ? Hg Ht | | | | | | ]; subst; clear H.
  inversion Hg as [ | | | | | | | ? ? ? ? ? ? ? ? Hb | | | ]; subst; clear Hg.
  inversion Hb as [ | | | | ? ? ? ? ? pa sa ca ? ? ? Hds Hr | | | | | | ]; subst; clear Hb.
  inversion Hds as [ | | | ? ? ? ? ds ? ? ? Hall Hlo Hhi | | | | | | | ]; subst; clear Hds.
  inversion Hr as [ | | | | ? ? ? ? ? pb sb cb ? ? ? Hdot Hdd | | | | | | ]; subst; clear Hr.
  inversion Hdot as [ | ? x ? ? ? Hx | | | | | | | | | ]; subst; clear Hdot.
  inversion Hdd as [ | | | ? ? ? ? dd ? ? ? Hall2 Hlo2 Hhi2 | | | | | | | ]; subst; clear Hdd.
  inversion Ht as [ | | | | ? ? ? ? ? pc sc cc ? ? ? Hws He | | | | | | ]; subst; clear Ht.
  inversion Hws as [ | | | ? ? ? ? ws ? ? ? Hall3 _ _ | | | | | | | ]; subst; clear Hws.
  inversion He as [ | | | | | | | | | ? ? ? Hend | ]; subst; clear He.
  cbn [within] in Hhi2.
  destruct (length_2 dd Hlo2 Hhi2) as (d1 & d2 & ->).
  rewrite all_digit09 in Hall, Hall2. cbn [Str.all] in Hall2.
  apply andb_prop in Hall2 as [Hd1 Hd2']. apply andb_prop in Hd2' as [Hd2 _].
  cbn in Hx. unfold Char.eqb in Hx. apply Ascii.eqb_eq in Hx as ->.
  exists ds, d1, d2, (ws +:+ s').
  split.
  { rewrite !app_assoc_s. reflexivity. }
  split. { intros ->. cbn in Hlo. lia. }
  split; [done|]. split; [done|]. split; [done|].
  split. { rewrite all_app. apply andb_true_intro. split; [done | by apply at_end_space]. }
  f_equal. f_equal.
  rewrite <- (consumed_app (ds +:+ String "." (String d1 (String d2 ""))) (ws +:+ s')).
  f_equal. rewrite !app_assoc_s. reflexivity.
Qed.

Lemma trailing_amount_matches p ds d1 d2 ws :
  ds <> "" -> Str.all Char.is_digit ds = true ->
  Char.is_digit d1 = true -> Char.is_digit d2 = true ->
  Str.all Char.is_space ws = true ->
  exists p' c',
    matches no_flags re_trailing_amount p
            ((ds +:+ String "." (String d1 (String d2 ""))) +:+ ws) [] p' "" c'.
Proof.
  intros Hne Hds Hd1 Hd2 Hws.
  unfold re_trailing_amount, plus, times, star.
  rewrite app_assoc_s.
  change (String "." (String d1 (String d2 "")) +:+ ws)
    with (String "." (String d1 (String d2 "") +:+ ws)).
  replace ws with (ws +:+ "") by apply app_empty_r.
  do 2 eexists.
  eapply M_cat.
  - apply M_group. eapply M_cat.
    + apply M_rep; [by rewrite all_digit09 | | exact I].
      destruct ds; [done | cbn; lia].
    + eapply M_cat.
      * apply M_atom. reflexivity.
      * apply M_rep; [|cbn; lia | cbn; lia].
        rewrite all_digit09. cbn [Str.all]. by rewrite Hd1, Hd2.
  - eapply M_cat.
    + apply M_rep; [done | lia | exact I].
    + apply M_eol. reflexivity.
Qed.

Lemma end_prev_last pre : forall p d,
  end_prev p pre = Some d ->
  (pre = "" /\ p = Some d) \/ exists pre', pre = pre' +:+ String d "".
Proof.
  induction pre as [|c pre IH]; intros p d H; cbn [end_prev] in H.
  - by left.
  - right. apply IH in H as [[-> [= ->]] | [pre' ->]].
    + by exists "".
    + by exists (String c pre').
Qed.

(** The search for the trailing amount, in words. *)
Lemma trailing_amount_found s m :
  search no_flags re_trailing_amount s = Some m ->
  ends_with_amount s (group m 1).
Proof.
  intros H. apply search_sound in H as (pre & rest & -> & Hm & Hleft).
  destruct Hm as (p' & s' & c' & M & ->).
  apply trailing_amount_inv in M
    as (ds & d1 & d2 & ws & -> & Hne & Hds & Hd1 & Hd2 & Hws & ->).
  unfold group. cbn [groups lookup Nat.eqb].
  exists pre, ws. split; [done|].
  split. { by exists ds, d1, d2. }
  split; [done|].
  unfold last_is_digit, last_sat.
  destruct (end_prev None pre) as [d|] eqn:E; [|done].
  destruct (Char.is_digit d) eqn:Hd; [exfalso | done].
  apply end_prev_last in E as [[_ [=]] | [pre' ->]].
  destruct (trailing_amount_matches (end_prev None pre') (String d ds) d1 d2 ws)
    as (p1 & c1 & M1); try done.
  { cbn [Str.all]. by rewrite Hd, Hds. }
  eapply (Hleft pre' _ _).
  - rewrite app_assoc_s. reflexivity.
  - rewrite length_app_s. cbn. lia.
  - exists p1, "", c1. split; [exact M1 | reflexivity].
Qed.

Lemma trailing_amount_absent s :
  search no_flags re_trailing_amount s = None ->
  forall v, ~ ends_with_amount s v.
Proof.
  intros H v (pre & ws & -> & (ds & d1 & d2 & -> & Hne & Hds & Hd1 & Hd2) & Hws & _).
  destruct (trailing_amount_matches (end_prev None pre) ds d1 d2 ws)
    as (p1 & c1 & M1); try done.
  rewrite search_none_iff in H. eapply (H pre _ _).
  - reflexivity.
  - exists p1, "", c1. split; [exact M1 | reflexivity].
Qed.

(** ** The amount a line ends with is unique *)

Lemma app_eq_app_s a1 : forall w1 a2 w2,
  a1 +:+ w1 = a2 +:+ w2 ->
  exists t, (a2 = a1 +:+ t /\ w1 = t +:+ w2) \/ (a1 = a2 +:+ t /\ w2 = t +:+ w1).
Proof.
  induction a1 as [|c a1 IH]; intros w1 a2 w2 H.
  - exists a2. left. by rewrite !app_nil_s in *.
  - destruct a2 as [|d a2].
    + exists (String c a1). right. by rewrite !app_nil_s in *.
    + rewrite !app_cons_s in H. injection H as -> H.
      apply IH in H as [t [[-> ->] | [-> ->]]]; exists t; [left | right]; done.
Qed.

Lemma end_prev_all (f : ascii -> bool) t : forall p,
  Str.all f t = true -> t <> "" ->
  exists c, end_prev p t = Some c /\ f c = true.
Proof.
  induction t as [|x t IH]; intros p Ht Hne; [done|].
  cbn [Str.all] in Ht. apply andb_prop in Ht as [Hx Ht]. cbn [end_prev].
  destruct t as [|y t]; [by exists x|]. by apply IH.
Qed.

(** A string splits in one way only into a part that does not end in an
    [f]-character and a tail of [f]-characters. *)
Lemma max_suffix_unique f a1 w1 a2 w2 :
  a1 +:+ w1 = a2 +:+ w2 ->
  Str.all f w1 = true -> Str.all f w2 = true ->
  last_sat f a1 = false -> last_sat f a2 = false ->
  a1 = a2 /\ w1 = w2.
Proof.
  assert (Hone : forall a t w, Str.all f (t +:+ w) = true ->
                   last_sat f (a +:+ t) = false -> t = "").
  { intros a t w Hall Hlast. destruct t as [|x t]; [done|]. exfalso.
    rewrite all_app in Hall. apply andb_prop in Hall as [Ht _].
    destruct (end_prev_all f (String x t) (end_prev None a) Ht) as (c & Hc & Hf);
      [done|].
    unfold last_sat in Hlast. rewrite end_prev_app, Hc in Hlast. congruence. }
  intros H Hw1 Hw2 Ha1 Ha2.
  apply app_eq_app_s in H as [t [[-> ->] | [-> ->]]].
  - rewrite (Hone a1 t w2 Hw1 Ha2). by rewrite app_empty_r, app_nil_s.
  - rewrite (Hone a2 t w1 Hw2 Ha1). by rewrite app_empty_r, app_nil_s.
Qed.

Lemma digit_not_space c : Char.is_digit c = true -> Char.is_space c = false.
Proof.
  intros Hc.
  destruct c as [b0 b1 b2 b3 b4 b5 b6 b7];
    destruct b0, b1, b2, b3, b4, b5, b6, b7;
    first [reflexivity | vm_compute in Hc; discriminate Hc].
Qed.

Lemma app_same_length_r a b t u :
  a +:+ t = b +:+ u -> String.length t = String.length u -> a = b /\ t = u.
Proof.
  intros H Hlen. apply app_eq_app_s in H as [w [[-> ->] | [-> ->]]];
    rewrite length_app_s in Hlen;
    (destruct w; [by rewrite app_empty_r, app_nil_s | cbn in Hlen; lia]).
Qed.

Lemma ends_with_amount_unique s v1 v2 :
  ends_with_amount s v1 -> ends_with_amount s v2 -> v1 = v2.
Proof.
  intros (pre1 & ws1 & -> & (ds1 & d1 & d2 & -> & _ & Hds1 & _ & Hd2) & Hws1 & Hp1)
         (pre2 & ws2 & H & (ds2 & e1 & e2 & -> & _ & Hds2 & _ & He2) & Hws2 & Hp2).
  rewrite <- !app_assoc_s in H.
  apply max_suffix_unique with (f := Char.is_space) in H as [H _]; try done.
  2,3: unfold last_sat; rewrite !end_prev_app; cbn [end_prev];
       by apply digit_not_space.
  apply app_same_length_r in H as [H ->]; [|done].
  apply max_suffix_unique with (f := Char.is_digit) in H as [_ ->]; done.
Qed.

(** ** [float] of an amount *)

Lemma sign_digit c r :
  Char.is_digit c = true -> sign (String c r) = (false, String c r).
Proof.
  intros Hc.
  destruct c as [b0 b1 b2 b3 b4 b5 b6 b7];
    destruct b0, b1, b2, b3, b4, b5, b6, b7;
    first [reflexivity | vm_compute in Hc; discriminate Hc].
Qed.

Lemma digits_all ds : forall rest acc cnt,
  Str.all Char.is_digit ds = true ->
  match rest with String x _ => Char.is_digit x = false | EmptyString => True end ->
  exists acc', digits (ds +:+ rest) acc cnt = (acc', (cnt + String.length ds)%nat, rest).
Proof.
  induction ds as [|d ds IH]; intros rest acc cnt Hds Hrest.
  - rewrite app_nil_s. exists acc. rewrite Nat.add_0_r.
    destruct rest as [|x r]; cbn [digits]; [done | by rewrite Hrest].
  - cbn [Str.all] in Hds. apply andb_prop in Hds as [Hd Hds].
    rewrite app_cons_s. cbn [digits]. rewrite Hd.
    destruct (IH rest (10 * acc + Z.of_nat (Char.code d - 48)) (S cnt) Hds Hrest)
      as [acc' ->].
    exists acc'. cbn [String.length]. by rewrite Nat.add_succ_r.
Qed.

(** [float] accepts every amount. *)
Lemma float_of_amount v :
  is_amount v -> exists x, float_of_string v = Ok x.
Proof.
  intros (ds & d1 & d2 & -> & Hne & Hds & Hd1 & Hd2).
  unfold float_of_string.
  destruct ds as [|d ds]; [done|]. rewrite app_cons_s.
  cbn [Str.all] in Hds. apply andb_prop in Hds as [Hd Hds].
  rewrite (sign_digit d _ Hd).
  destruct (digits_all (String d ds) (String "." (String d1 (String d2 ""))) 0 0)
    as [n1 E1].
  { cbn [Str.all]. by rewrite Hd, Hds. }
  { reflexivity. }
  rewrite app_cons_s in E1. rewrite E1.
  destruct (digits_all (String d1 (String d2 "")) "" n1 0) as [n2 E2].
  { cbn [Str.all]. by rewrite Hd1, Hd2. }
  { exact I. }
  rewrite app_empty_r in E2. rewrite E2.
  cbn [String.length Nat.add]. rewrite Nat.add_succ_r. cbn [Nat.eqb]. eauto.
Qed.

(** ** The word Freight *)

Lemma is_word_lower x : Char.is_word (Char.lower x) = Char.is_word x.
Proof.
  destruct x as [b0 b1 b2 b3 b4 b5 b6 b7];
    destruct b0, b1, b2, b3, b4, b5, b6, b7; vm_compute; reflexivity.
Qed.

Lemma lits_ok_lower_any fl l : forall v,
  ignorecase fl = true ->
  (lits_ok fl l v = true <-> Str.lower v = Str.lower l).
Proof.
  induction l as [|c l IH]; intros [|x v] Hfl; cbn [lits_ok Str.lower]; try done.
  cbn [atom_ok]. rewrite Hfl. unfold Char.eqb.
  rewrite andb_true_iff, Ascii.eqb_eq, (IH v Hfl). split.
  - intros [-> ->]. reflexivity.
  - intros [= -> ->]. done.
Qed.

Lemma lower_head_is_word v l post :
  Str.lower v = Str.lower l -> l <> "" ->
  head_is_word (v +:+ post) = head_is_word (l +:+ post).
Proof.
  destruct v as [|x v], l as [|c l]; cbn [Str.lower]; try done.
  intros [= E _] _. rewrite !app_cons_s. cbn [head_is_word].
  by rewrite <- (is_word_lower x), E, is_word_lower.
Qed.

Lemma lower_end_prev_is_word v : forall l p q,
  Str.lower v = Str.lower l -> prev_is_word p = prev_is_word q ->
  prev_is_word (end_prev p v) = prev_is_word (end_prev q l).
Proof.
  induction v as [|x v IH]; intros [|c l] p q; cbn [Str.lower]; try done.
  intros [= E El] _. cbn [end_prev]. apply IH; [done|].
  cbn [prev_is_word]. by rewrite <- (is_word_lower x), E, is_word_lower.
Qed.

Lemma freight_inv p rest p' s' c' :
  matches IGNORECASE re_freight p rest [] p' s' c' ->
  exists mid, rest = mid +:+ s' /\ Str.lower mid = "freight"
              /\ prev_is_word p = false /\ head_is_word s' = false.
Proof.
  unfold re_freight. intros H.
  inversion H as [ | | | | ? ? ? ? ? p1 s1 c1 ? ? ? Hb Hr | | | | | | ]; subst; clear H.
  inversion Hb as [ | | | | | | | | | | ? ? ? Hx1 ]; subst; clear Hb.
  inversion Hr as [ | | | | ? ? ? ? ? p2 s2 c2 ? ? ? Hl He | | | | | | ]; subst; clear Hr.
  inversion Hl as [ | | ? mid ? ? ? Hok | | | | | | | | ]; subst; clear Hl.
  inversion He as [ | | | | | | | | | | ? ? ? Hx2 ]; subst; clear He.
  apply lits_ok_lower_any in Hok; [|done].
  exists mid. split; [done|]. split; [exact Hok|].
  rewrite (lower_head_is_word mid "Freight" s' Hok) in Hx1 by done.
  rewrite (lower_end_prev_is_word mid "Freight" p1 p1 Hok eq_refl) in Hx2.
  cbn in Hx1, Hx2. split.
  - by destruct (prev_is_word p1).
  - by destruct (head_is_word s').
Qed.

Lemma freight_matches p mid post :
  Str.lower mid = "freight" -> prev_is_word p = false ->
  head_is_word post = false ->
  exists p', matches IGNORECASE re_freight p (mid +:+ post) [] p' post [].
Proof.
  intros Hmid Hp Hpost. unfold re_freight. eexists.
  eapply M_cat; [|eapply M_cat].
  - apply M_wordb.
    rewrite (lower_head_is_word mid "Freight" post Hmid) by done.
    rewrite Hp. reflexivity.
  - apply M_lits. by apply lits_ok_lower_any.
  - apply M_wordb.
    rewrite (lower_end_prev_is_word mid "Freight" p p Hmid eq_refl).
    rewrite Hpost. reflexivity.
Qed.

(** The freight test of [parse_lines], in words. *)
Lemma freight_search_iff s :
  is_Some (search IGNORECASE re_freight s) <-> has_word "Freight" s.
Proof.
  split.
  - intros [m H]. apply search_sound in H as (pre & rest & -> & Hm & _).
    destruct Hm as (p' & s' & c' & M & _).
    apply freight_inv in M as (mid & -> & Hmid & Hp & Hs).
    by exists pre, mid, s'.
  - intros (pre & mid & post & -> & Hmid & Hp & Hs).
    destruct (freight_matches (end_prev None pre) mid post Hmid Hp Hs) as [p' M].
    eapply search_complete. eexists _, _, _. split; [exact M | reflexivity].
Qed.

(** C5. A normalized line that is not skipped (not empty, not table
    chrome) and holds the word Freight, in any casing, contributes
    exactly one item: SKU "", name "Freight - UPS Ground", quantity 1,
    [price_subtotal] 0.0, and as [shipping] the amount (digits, a point,
    two digits) at the end of the line, or 0.0 when the line does not end
    with such an amount. *)
Theorem freight_line_gives_one_item raw :
  Str.is_empty (clean raw) = false ->
  search IGNORECASE re_chrome (clean raw) = None ->
  has_word "Freight" (clean raw) ->
  exists ship,
    line_items raw = Ok [item "" "Freight - UPS Ground" (NInt 1) zero ship]
    /\ ((exists v, ends_with_amount (clean raw) v /\ float_of_string v = Ok ship)
        \/ ((forall v, ~ ends_with_amount (clean raw) v) /\ ship = zero)).
Proof.
  intros Hne Hchrome Hw. apply freight_search_iff in Hw as [mf Hf].
  unfold line_items, parse_line. rewrite Hne, Hchrome, Hf. cbn [is_match].
  destruct (search no_flags re_trailing_amount (clean raw)) as [m|] eqn:E.
  - pose proof (trailing_amount_found _ _ E) as Hv.
    destruct (float_of_amount (group m 1)) as [x Hx].
    { by destruct Hv as (? & ? & _ & ? & _). }
    rewrite Hx. cbn [bind app]. exists x. split; [done|]. left. eauto.
  - cbn [bind app]. exists zero. split; [done|]. right.
    split; [by apply trailing_amount_absent | done].
Qed.

Lemma freight_line_gives_one_item_witness :
  exists ship,
    line_items freight_line = Ok [item "" "Freight - UPS Ground" (NInt 1) zero ship]
    /\ ((exists v, ends_with_amount (clean freight_line) v
                   /\ float_of_string v = Ok ship)
        \/ ((forall v, ~ ends_with_amount (clean freight_line) v) /\ ship = zero)).
Proof.
  apply (freight_line_gives_one_item freight_line).
  - reflexivity.
  - vm_compute. reflexivity.
  - exists "UPS Ground ", "Freight", " 12.34". vm_compute. auto.
Defined.

(** The scenario of the specification for a freight line. *)
Example freight_scenario : parse_lines freight_line = Ok [freight_item].
Proof. vm_compute. reflexivity. Qed.

(* ================================================================== *)
(** * Further facts *)

(** ** The table region needs a terminal marker *)

Lemma matches_prefix fl r p s c p' s' c' :
  matches fl r p s c p' s' c' -> exists v, s = v +:+ s'.
Proof.
  induction 1 as [ p s c | a x p s c E | l v p s c Hv
                 | a lo hi g v p s c Hv Hlo Hhi
                 | r1 r2 p s c p1 s1 c1 p2 s2 c2 M1 [v1 IH1] M2 [v2 IH2]
                 | r1 r2 p s c p' s' c' M IH | r1 r2 p s c p' s' c' M IH
                 | n r p s c p' s' c' M IH | s c | p s c E | p s c E ];
    try (by exists ""); try done.
  - by exists (String x "").
  - by exists v.
  - by exists v.
  - exists (v1 +:+ v2). by rewrite IH1, IH2, app_assoc_s.
Qed.

Ltac inv_cat H p s c M1 M2 :=
  inversion H as [ | | | | ? ? ? ? ? p s c ? ? ? M1 M2 | | | | | | ];
  subst; clear H.

Lemma table_needs_marker text :
  is_Some (search DOTALL_IGNORECASE re_table text) -> has_marker text.
Proof.
  intros [m H]. apply search_sound in H as (pre & rest & -> & Hm & _).
  destruct Hm as (p' & s' & c' & M & _). unfold re_table in M.
  inv_cat M p1 s1 c1 A1 N1. apply matches_prefix in A1 as [v1 ->].
  inv_cat N1 p2 s2 c2 A2 N2. apply matches_prefix in A2 as [v2 ->].
  inv_cat N2 p3 s3 c3 A3 N3. apply matches_prefix in A3 as [v3 ->].
  inv_cat N3 p4 s4 c4 A4 N4. apply matches_prefix in A4 as [v4 ->].
  inv_cat N4 p5 s5 c5 A5 N5. apply matches_prefix in A5 as [v5 ->].
  inv_cat N5 p6 s6 c6 A6 N6. apply matches_prefix in A6 as [v6 ->].
  inv_cat N6 p7 s7 c7 A7 N7. apply matches_prefix in A7 as [v7 ->].
  inv_cat N7 p8 s8 c8 A8 M.
  inversion A8 as [ | ? x ? ? ? Hx | | | | | | | | | ]; subst; clear A8.
  cbn in Hx. unfold Char.eqb in Hx. apply Ascii.eqb_eq in Hx.
  assert (x = Char.LF) as ->.
  { destruct x as [b0 b1 b2 b3 b4 b5 b6 b7];
      destruct b0, b1, b2, b3, b4, b5, b6, b7;
      first [reflexivity | vm_compute in Hx; discriminate Hx]. }
  clear Hx.
  assert (Hmk : exists mk, s8 = mk +:+ s'
                /\ (Str.lower mk = "thank you" \/ Str.lower mk = "sales total"
                    \/ Str.lower mk = "freight total")).
  { inversion M as [ | | | | | ? ? ? ? ? ? ? ? M1 | ? ? ? ? ? ? ? ? M2 | | | | ];
      subst; clear M.
    - inversion M1 as [ | | ? mk ? ? ? Hok | | | | | | | | ]; subst.
      apply lits_ok_lower_any in Hok; [|done]. exists mk. auto.
    - inversion M2 as [ | | | | | ? ? ? ? ? ? ? ? M1 | ? ? ? ? ? ? ? ? M3 | | | | ];
        subst; clear M2.
      + inversion M1 as [ | | ? mk ? ? ? Hok | | | | | | | | ]; subst.
        apply lits_ok_lower_any in Hok; [|done]. exists mk. auto.
      + inversion M3 as [ | | ? mk ? ? ? Hok | | | | | | | | ]; subst.
        apply lits_ok_lower_any in Hok; [|done]. exists mk. auto. }
  destruct Hmk as (mk & -> & Hmk).
  exists (pre +:+ v1 +:+ v2 +:+ v3 +:+ v4 +:+ v5 +:+ v6 +:+ v7), mk, s'.
  split; [|done]. by rewrite !app_assoc_s.
Qed.

(** A text with no terminal marker has no table region, so all its lines
    are classified. *)
Lemma no_marker_scans_whole_text text :
  ~ has_marker text -> parse_lines text = scan (Str.splitlines text).
Proof.
  intros Hn. rewrite parse_lines_scan. unfold table_block.
  destruct (search DOTALL_IGNORECASE re_table text) eqn:E; [|done].
  destruct Hn. apply table_needs_marker. rewrite E. eauto.
Qed.

(** ** Groups the program reads *)

(** Every group that the program reads from a match belongs to the groups
    its pattern always binds, so [binds_spec] applies to each read. *)
Lemma groups_read_are_bound :
  Forall (fun r => In 1%nat (binds r))
         [re_invoice_no; re_purchase_date; re_so_number; re_shipment_number;
          re_tracking; re_tracking_heading; re_table; re_trailing_amount]
  /\ Forall (fun n => In n (binds re_full_item)) [1; 2; 3; 7]%nat
  /\ Forall (fun n => In n (binds re_short_item)) [1; 2; 4]%nat.
Proof.
  split; [|split];
    repeat (apply List.Forall_cons; [cbn; tauto|]); apply List.Forall_nil.
Qed.

(** ** The sign of a zero total *)

(** With both amounts -0.0 the code's total is 0.0 where the sum of the
    raw values is -0.0: the same number, another float. *)
Example zero_total_sign :
  let it := item "X" "Y" (NInt 1) (S754_zero true) (S754_zero true) in
  (exists row, make_row ∅ None it = Ok row /\ grand_total row = S754_zero false)
  /\ round2 (add (S754_zero true) (S754_zero true)) = S754_zero true.
Proof. split; [eexists; split; reflexivity | reflexivity]. Qed.

(** ** Where [parse_lines] can raise *)

Lemma float_of_string_error s e :
  float_of_string s = Raise e -> e = ValueError.
Proof.
  unfold float_of_string.
  destruct (sign s) as [neg s1].
  destruct (digits s1 0 0) as [[n1 c1] s2].
  destruct s2 as [|x s3].
  - destruct (c1 =? 0)%nat; congruence.
  - destruct (Ascii.eqb_spec x ".") as [->|Hx].
    + destruct (digits s3 n1 0) as [[n2 c2] s4].
      destruct s4; [destruct (c1 + c2 =? 0)%nat|]; congruence.
    + destruct x as [b0 b1 b2 b3 b4 b5 b6 b7];
        destruct b0, b1, b2, b3, b4, b5, b6, b7; congruence.
Qed.

(** A line raises only on the full-item path, and then [ValueError]:
    empty lines, table chrome, freight lines, short item lines and
    unparsed lines never raise. *)
Lemma line_items_raise_only_full_item raw e :
  line_items raw = Raise e ->
  e = ValueError /\ is_Some (search no_flags re_full_item (clean raw)).
Proof.
  unfold line_items, parse_line.
  destruct (Str.is_empty (clean raw)); [discriminate|].
  destruct (is_match (search IGNORECASE re_chrome (clean raw))); [discriminate|].
  destruct (is_match (search IGNORECASE re_freight (clean raw))).
  { destruct (search no_flags re_trailing_amount (clean raw)) as [m|] eqn:E;
      [|discriminate].
    apply trailing_amount_found in E as (? & ? & _ & Ha & _).
    apply float_of_amount in Ha as [y ->]. discriminate. }
  destruct (search no_flags re_full_item (clean raw)) as [m|].
  - intros H. split; [|eauto].
    destruct (negb (Str.is_empty (group m 3))).
    + destruct (float_of_string (group m 3)) eqn:E3; cbn [bind] in H.
      * destruct (negb (Str.is_empty (group m 7))); [|discriminate].
        destruct (float_of_string (Str.remove_char "," (group m 7))) eqn:E7;
          cbn [bind] in H; [discriminate|].
        injection H as <-. by eapply float_of_string_error.
      * injection H as <-. by eapply float_of_string_error.
    + cbn [bind] in H.
      destruct (negb (Str.is_empty (group m 7))); [|discriminate].
      destruct (float_of_string (Str.remove_char "," (group m 7))) eqn:E7;
        cbn [bind] in H; [discriminate|].
      injection H as <-. by eapply float_of_string_error.
  - destruct (search no_flags re_short_item (clean raw)); discriminate.
Qed.

(* ================================================================== *)
(** * What a match consumes and captures *)

Lemma lits_ok_length fl l : forall v,
  lits_ok fl l v = true -> String.length v = String.length l.
Proof.
  induction l as [|c l IH]; intros [|x v]; cbn [lits_ok]; try done.
  intros H. apply andb_prop in H as [_ H]. cbn. f_equal. by apply IH.
Qed.

Lemma matches_consumes fl f r p s c p' s' c' :
  matches fl r p s c p' s' c' ->
  exists v, s = v +:+ s'
            /\ (chars_ok fl f r -> Str.all f v = true)
            /\ (min_len r <= String.length v)%nat.
Proof.
  induction 1 as [ p s c | a x p s c E | l v p s c Hv
                 | a lo hi g v p s c Hv Hlo Hhi
                 | r1 r2 p s c p1 s1 c1 p2 s2 c2 M1 (v1 & -> & K1 & L1)
                     M2 (v2 & -> & K2 & L2)
                 | r1 r2 p s c p' s' c' M (v & -> & K & L)
                 | r1 r2 p s c p' s' c' M (v & -> & K & L)
                 | n r p s c p' s' c' M (v & -> & K & L) | s c | p s c E | p s c E ];
    cbn [chars_ok min_len].
  - by exists "".
  - exists (String x ""). split; [done|]. split; [|cbn; lia].
    intros Hf. cbn. by rewrite (Hf x E).
  - exists v. split; [done|]. split; [auto|]. by rewrite (lits_ok_length fl l v Hv).
  - exists v. split; [done|]. split; [|done].
    intros Hf. clear Hlo Hhi. induction v as [|x v IHv]; [done|].
    cbn [Str.all] in *. apply andb_prop in Hv as [Hx Hv].
    by rewrite (Hf x Hx), IHv.
  - exists (v1 +:+ v2). split; [by rewrite app_assoc_s|]. split.
    + intros [H1 H2]. by rewrite all_app, K1, K2.
    + rewrite length_app_s. lia.
  - exists v. split; [done|]. split; [intros [H1 _]; auto | lia].
  - exists v. split; [done|]. split; [intros [_ H2]; auto | lia].
  - exists v. split; [done|]. split; [auto | lia].
  - by exists "".
  - by exists "".
  - by exists "".
Qed.

Lemma matches_group_chars fl n f r p s c p' s' c' :
  matches fl r p s c p' s' c' ->
  group_chars fl n f r -> good_group n f c -> good_group n f c'.
Proof.
  induction 1 as [ | | | | r1 r2 p s c p1 s1 c1 p2 s2 c2 M1 IH1 M2 IH2
                 | r1 r2 p s c p' s' c' M IH | r1 r2 p s c p' s' c' M IH
                 | k r p s c p' s' c' M IH | | | ];
    cbn [group_chars]; try done.
  - intros [G1 G2] Hc. auto.
  - intros [G1 _] Hc. auto.
  - intros [_ G2] Hc. auto.
  - intros [G Hk] Hc v. cbn [lookup].
    destruct (Nat.eqb_spec k n) as [->|Hne].
    + intros [= <-]. destruct (Hk eq_refl) as [Hf Hlen].
      destruct (matches_consumes fl f _ _ _ _ _ _ _ M) as (w & -> & Hw & Hl).
      rewrite consumed_app. split; [|auto].
      intros ->. cbn in Hl. lia.
    + by apply IH.
Qed.

(** A group that is always bound, and captures only non-empty runs of
    [f]-characters, is read as such a run from every search result. *)
Lemma search_group_chars fl r text m n f :
  search fl r text = Some m -> In n (binds r) -> group_chars fl n f r ->
  group m n <> "" /\ Str.all f (group m n) = true.
Proof.
  intros H Hb Hg. pose proof (binds_spec fl r text m n H Hb) as Hl.
  apply search_sound in H as (pre & rest & _ & (p' & s' & c' & M & ->) & _).
  cbn [groups] in Hl.
  eapply (matches_group_chars fl n f) in M; [|exact Hg|done].
  by apply M.
Qed.

(** ** Greedy repetition before a continuation that always accepts *)


Lemma span_app f v rest :
  Str.all f v = true -> head_sat f rest = false -> span f (v +:+ rest) = (v, rest).
Proof.
  intros Hv Hr. induction v as [|x v IH].
  - rewrite app_nil_s. destruct rest as [|c r]; cbn in *; [done | by rewrite Hr].
  - cbn [Str.all] in Hv. apply andb_prop in Hv as [Hx Hv].
    rewrite app_cons_s. cbn [span]. by rewrite Hx, IH.
Qed.

Section GreedyTotal.
Variable fl : flags.
Context {A : Type}.



End GreedyTotal.

Lemma search_from_here fl r s : forall p m,
  search_from fl r p s = Some m ->
  exists pre rest, s = pre +:+ rest
                   /\ match_here fl r (end_prev p pre) rest = Some m.
Proof.
  induction s as [|x s IH]; intros p m H; cbn [search_from] in H.
  - apply or_else_some in H as [H | [_ H]]; [|discriminate]. by exists "", "".
  - apply or_else_some in H as [H | [_ H]].
    + by exists "", (String x s).
    + apply IH in H as (pre & rest & -> & H). by exists (String x pre), rest.
Qed.


(* ================================================================== *)
(** * More on [parse_header] *)

Ltac by_char x :=
  destruct x as [b0 b1 b2 b3 b4 b5 b6 b7];
  destruct b0, b1, b2, b3, b4, b5, b6, b7; vm_compute; reflexivity.

Lemma upper_digit_dash_ok x :
  atom_ok no_flags upper_digit_dash x = is_upper_digit_dash x.
Proof. by_char x. Qed.







(** The match that decides a key, when the key is present. *)
Lemma header_value_source text key v :
  parse_header text !! key = Some v ->
  exists m, header_search key text = Some m /\ v = group m 1
            /\ lookup 1 (groups m) = Some v.
Proof.
  rewrite parse_header_lookup. unfold group1.
  destruct (header_search key text) as [m|]; [|discriminate].
  intros H. exists m. split; [done|]. unfold group. by rewrite H.
Qed.

Lemma all_impl (f g : ascii -> bool) v :
  (forall x, f x = true -> g x = true) -> Str.all f v = true -> Str.all g v = true.
Proof.
  intros Hfg. induction v as [|x v IH]; [done|]. cbn [Str.all].
  intros H. apply andb_prop in H as [Hx Hv]. by rewrite (Hfg x Hx), IH.
Qed.


Ltac solve_group_chars :=
  cbn [group_chars chars_ok min_len Nat.add];
  repeat split; try lia; try done.





Lemma length_1_2 (v : string) :
  (1 <= String.length v)%nat -> (String.length v <= 2)%nat ->
  String.length v = 1%nat \/ String.length v = 2%nat.
Proof. lia. Qed.

Lemma all_digit_atom fl v :
  Str.all (atom_ok fl Digit) v = true -> Str.all Char.is_digit v = true.
Proof. done. Qed.

(** X3. A stored purchase date has the shape D/M/YYYY: one or two digits,
    a slash, one or two digits, a slash, four digits. *)
Theorem purchase_date_shape text v :
  parse_header text !! "purchase_date" = Some v ->
  exists d mo y,
    v = d +:+ String "/" (mo +:+ String "/" y)
    /\ Str.all Char.is_digit d = true /\ Str.all Char.is_digit mo = true
    /\ Str.all Char.is_digit y = true
    /\ (1 <= String.length d <= 2)%nat /\ (1 <= String.length mo <= 2)%nat
    /\ String.length y = 4%nat.
Proof.
  intros H. apply header_value_source in H as (m & Hs & -> & _).
  unfold header_search in Hs. cbn in Hs.
  apply search_sound in Hs as (pre & rest & _ & (p' & s' & c' & M & ->) & _).
  unfold re_purchase_date, star, upto, times in M.
  inv_cat M p1 s1 c1 A1 N1. inv_cat N1 p2 s2 c2 A2 N2. inv_cat N2 p3 s3 c3 A3 N3.
  inversion A1; subst. inversion A2; subst. inversion A3; subst. clear A1 A2 A3.
  inversion N3 as [ | | | | | | | ? ? ? ? ? ? ? ? G | | | ]; subst; clear N3.
  inv_cat G q1 t1 e1 B1 G1. inv_cat G1 q2 t2 e2 B2 G2.
  inv_cat G2 q3 t3 e3 B3 G3. inv_cat G3 q4 t4 e4 B4 B5.
  inversion B1 as [ | | | ? ? ? ? d ? ? ? Hd Hd1 Hd2 | | | | | | | ]; subst; clear B1.
  inversion B2 as [ | ? x1 ? ? ? Hx1 | | | | | | | | | ]; subst; clear B2.
  inversion B3 as [ | | | ? ? ? ? mo ? ? ? Hm Hm1 Hm2 | | | | | | | ]; subst; clear B3.
  inversion B4 as [ | ? x2 ? ? ? Hx2 | | | | | | | | | ]; subst; clear B4.
  inversion B5 as [ | | | ? ? ? ? y ? ? ? Hy Hy1 Hy2 | | | | | | | ]; subst; clear B5.
  assert (Hslash : forall x, atom_ok no_flags (Lit "/") x = true -> x = "/"%char).
  { intros x Hx. cbn in Hx. unfold Char.eqb in Hx. by apply Ascii.eqb_eq in Hx. }
  apply Hslash in Hx1 as ->. apply Hslash in Hx2 as ->.
  exists d, mo, y. unfold group. cbn [groups lookup Nat.eqb].
  split.
  { rewrite <- (consumed_app (d +:+ String "/" (mo +:+ String "/" y)) s').
    f_equal. rewrite !app_assoc_s, !app_cons_s, !app_assoc_s, !app_cons_s.
    reflexivity. }
  cbn [within] in *. repeat split; try done; lia.
Qed.

Lemma purchase_date_shape_witness :
  exists d mo y,
    "4/5/2024" = d +:+ String "/" (mo +:+ String "/" y)
    /\ Str.all Char.is_digit d = true /\ Str.all Char.is_digit mo = true
    /\ Str.all Char.is_digit y = true
    /\ (1 <= String.length d <= 2)%nat /\ (1 <= String.length mo <= 2)%nat
    /\ String.length y = 4%nat.
Proof.
  apply (purchase_date_shape header_text). vm_compute. reflexivity.
Defined.

(* ================================================================== *)
(** * [clean] *)

Lemma rev_app_acc s : forall acc, Str.rev_app s acc = Str.rev_app s "" +:+ acc.
Proof.
  induction s as [|c s IH]; intros acc; cbn [Str.rev_app]; [done|].
  rewrite (IH (String c acc)), (IH (String c "")), app_assoc_s. done.
Qed.

Lemma rev_cons c s : Str.rev (String c s) = Str.rev s +:+ String c "".
Proof. unfold Str.rev. cbn [Str.rev_app]. apply rev_app_acc. Qed.

Lemma rev_app_s a b : Str.rev (a +:+ b) = Str.rev b +:+ Str.rev a.
Proof.
  induction a as [|c a IH].
  - by rewrite app_nil_s, app_empty_r.
  - by rewrite app_cons_s, !rev_cons, IH, app_assoc_s.
Qed.

Lemma rev_involutive s : Str.rev (Str.rev s) = s.
Proof.
  induction s as [|c s IH]; [done|]. by rewrite rev_cons, rev_app_s, IH.
Qed.

Lemma all_rev f s : Str.all f (Str.rev s) = Str.all f s.
Proof.
  induction s as [|c s IH]; [done|].
  rewrite rev_cons, all_app, IH. cbn. by rewrite andb_true_r, andb_comm.
Qed.

Lemma end_prev_default t : forall p,
  end_prev p t = match end_prev None t with Some c => Some c | None => p end.
Proof.
  induction t as [|x t IH]; intros p; cbn [end_prev]; [done|].
  rewrite (IH (Some x)). by destruct (end_prev None t).
Qed.

Lemma end_prev_nonempty t p : t <> "" -> exists c, end_prev p t = Some c.
Proof.
  revert p. induction t as [|x t IH]; intros p Hne; [done|]. cbn [end_prev].
  destruct t as [|y t]; [by exists x | by apply IH].
Qed.

Lemma head_rev f s : head_sat f (Str.rev s) = last_sat f s.
Proof.
  unfold last_sat. induction s as [|c s IH]; [done|].
  rewrite rev_cons. cbn [end_prev]. rewrite (end_prev_default s (Some c)).
  destruct (Str.rev s) as [|y r] eqn:E.
  - assert (s = "") as -> by (by rewrite <- (rev_involutive s), E). done.
  - rewrite app_cons_s. cbn [head_sat] in *. rewrite IH.
    destruct (end_prev None s) as [d|] eqn:Ed; [done|].
    destruct s as [|z s]; [done|].
    destruct (end_prev_nonempty (String z s) None) as [d Hd]; [done | congruence].
Qed.

Lemma drop_while_split f s :
  exists w, s = w +:+ Str.drop_while f s /\ Str.all f w = true
            /\ head_sat f (Str.drop_while f s) = false.
Proof.
  induction s as [|c s (w & Hs & Hw & Hh)]; cbn [Str.drop_while].
  - by exists "".
  - destruct (f c) eqn:E.
    + exists (String c w). rewrite app_cons_s, <- Hs. cbn. by rewrite E, Hw.
    + exists "". cbn. by rewrite E.
Qed.

Lemma drop_while_head f s : head_sat f s = false -> Str.drop_while f s = s.
Proof. destruct s as [|c s]; cbn; [done | by intros ->]. Qed.

Lemma drop_while_all f s : Str.all f s = true -> Str.drop_while f s = "".
Proof.
  induction s as [|c s IH]; cbn; [done|]. intros H.
  apply andb_prop in H as [-> H]. by apply IH.
Qed.

(** [s.strip()] is [s] without its leading and trailing white space. *)
Lemma strip_spec s :
  exists w1 w2,
    s = w1 +:+ Str.strip s +:+ w2
    /\ Str.all Char.is_space w1 = true /\ Str.all Char.is_space w2 = true
    /\ head_sat Char.is_space (Str.strip s) = false
    /\ last_sat Char.is_space (Str.strip s) = false.
Proof.
  unfold Str.strip.
  destruct (drop_while_split Char.is_space s) as (w1 & Hs & Hw1 & Hh).
  set (t := Str.drop_while Char.is_space s) in *.
  destruct (drop_while_split Char.is_space (Str.rev t)) as (w2 & Ht & Hw2 & Hu).
  set (u := Str.drop_while Char.is_space (Str.rev t)) in *.
  assert (Et : t = Str.rev u +:+ Str.rev w2).
  { by rewrite <- (rev_involutive t), Ht, rev_app_s. }
  exists w1, (Str.rev w2). split; [by rewrite <- Et|].
  split; [done|]. split; [by rewrite all_rev|]. split.
  - destruct (Str.rev u) as [|c r] eqn:E; [done|].
    rewrite Et, app_cons_s in Hh. exact Hh.
  - by rewrite <- head_rev, rev_involutive.
Qed.

Lemma collapse_norm t : forall b p,
  t <> "" ->
  (forall c, end_prev p t = Some c -> Char.is_space c = false) ->
  norm_go (Str.collapse_ws t b) b = true.
Proof.
  induction t as [|c t IH]; intros b p Hne Hlast; [done|].
  cbn [Str.collapse_ws]. cbn [end_prev] in Hlast.
  destruct t as [|d t].
  - rewrite (Hlast c eq_refl). cbn. by rewrite (Hlast c eq_refl).
  - specialize (IH) . destruct (Char.is_space c) eqn:Ec.
    + destruct b.
      * by apply (IH true (Some c)).
      * cbn [norm_go]. replace (Char.is_space " ") with true by reflexivity.
        cbn. by apply (IH true (Some c)).
    + cbn [norm_go]. rewrite Ec. by apply (IH false (Some c)).
Qed.

(** [clean] always returns a normalized line. *)
Lemma clean_normal s : is_normalized (clean s) = true.
Proof.
  unfold clean, is_normalized.
  destruct (strip_spec s) as (w1 & w2 & _ & _ & _ & Hh & Hl).
  destruct (Str.strip s) as [|c t]; [done|].
  cbn [head_sat] in Hh. cbn [Str.collapse_ws]. rewrite Hh.
  cbn [Str.is_empty orb norm_go]. rewrite Hh.
  destruct t as [|d t]; [done|].
  apply (collapse_norm (String d t) false (Some c)); [done|].
  intros x Hx. unfold last_sat in Hl. cbn [end_prev] in Hl, Hx. by rewrite Hx in Hl.
Qed.

Lemma norm_collapse t : forall b,
  norm_go t b = true -> Str.collapse_ws t b = t.
Proof.
  induction t as [|c t IH]; intros b; cbn [norm_go Str.collapse_ws]; [done|].
  destruct (Char.is_space c) eqn:Ec.
  - intros H. apply andb_prop in H as [H Ht]. apply andb_prop in H as [Hc Hb].
    destruct b; [done|]. unfold Char.eqb in Hc. apply Ascii.eqb_eq in Hc as ->.
    by rewrite (IH true Ht).
  - intros Ht. by rewrite (IH false Ht).
Qed.

Lemma norm_last t : forall b p c,
  norm_go t b = true -> t <> "" -> end_prev p t = Some c -> Char.is_space c = false.
Proof.
  induction t as [|x t IH]; intros b p c; cbn [norm_go end_prev]; [done|].
  intros H _ Hc. destruct t as [|y t].
  - injection Hc as <-. destruct (Char.is_space x); [|done].
    cbn in H. by rewrite andb_false_r in H.
  - destruct (Char.is_space x).
    + apply andb_prop in H as [_ H]. by apply (IH true (Some x) c).
    + by apply (IH false (Some x) c).
Qed.

(** A normalized line is left as it is. *)
Lemma clean_fixes_normalized t : is_normalized t = true -> clean t = t.
Proof.
  unfold is_normalized, clean. destruct t as [|c t]; [done|]. cbn [Str.is_empty orb].
  intros H.
  assert (Hc : Char.is_space c = false).
  { cbn [norm_go] in H. destruct (Char.is_space c); [|done].
    cbn in H. by rewrite andb_false_r in H. }
  assert (Hstrip : Str.strip (String c t) = String c t).
  { unfold Str.strip. rewrite (drop_while_head _ (String c t)) by done.
    rewrite drop_while_head; [apply rev_involutive|].
    rewrite head_rev. unfold last_sat.
    destruct (end_prev None (String c t)) as [d|] eqn:E; [|done].
    by apply (norm_last (String c t) true None d). }
  rewrite Hstrip. cbn [Str.collapse_ws]. rewrite Hc. f_equal.
  cbn [norm_go] in H. rewrite Hc in H. by apply norm_collapse.
Qed.

Lemma last_sat_cons f x a : a <> "" -> last_sat f (String x a) = last_sat f a.
Proof.
  intros Hne. unfold last_sat. cbn [end_prev]. rewrite (end_prev_default a (Some x)).
  destruct (end_prev_nonempty a None Hne) as [c ->]. done.
Qed.

Lemma norm_go_spec t : forall b,
  norm_go t b = true ->
  forall a c rest,
    t = a +:+ String c rest -> Char.is_space c = true ->
    c = " "%char /\ rest <> "" /\ head_sat Char.is_space rest = false
    /\ (if Str.is_empty a then b = false else last_sat Char.is_space a = false).
Proof.
  induction t as [|x t IH]; intros b H a c rest Ht Hc.
  - destruct a; discriminate Ht.
  - cbn [norm_go] in H. destruct a as [|y a].
    + rewrite app_nil_s in Ht. injection Ht as -> ->. rewrite Hc in H.
      apply andb_prop in H as [H Hr]. apply andb_prop in H as [Hx Hb].
      unfold Char.eqb in Hx. apply Ascii.eqb_eq in Hx.
      split; [done|]. cbn [Str.is_empty].
      destruct rest as [|z rest]; [discriminate Hr|].
      split; [done|]. split; [|by destruct b].
      cbn [norm_go head_sat] in *. destruct (Char.is_space z); [|done].
      cbn in Hr. by rewrite andb_false_r in Hr.
    + rewrite app_cons_s in Ht. injection Ht as -> ->. cbn [Str.is_empty].
      assert (Hrec : norm_go (a +:+ String c rest) (Char.is_space y) = true).
      { destruct (Char.is_space y); [|done]. by apply andb_prop in H as [_ H]. }
      destruct (IH _ Hrec a c rest eq_refl Hc) as (Hsp & Hne & Hh & Ha).
      split; [done|]. split; [done|]. split; [done|].
      destruct a as [|z a]; cbn [Str.is_empty] in Ha.
      * unfold last_sat. cbn. exact Ha.
      * by rewrite last_sat_cons.
Qed.

(** X4. In the line [clean] returns, every white-space character is a
    single space with a character that is not white space on either
    side: no white space at the ends, no tabs or line breaks, no two
    spaces in a row. *)
Theorem clean_leaves_single_inner_spaces s a c rest :
  clean s = a +:+ String c rest -> Char.is_space c = true ->
  c = " "%char /\ a <> "" /\ rest <> ""
  /\ last_sat Char.is_space a = false /\ head_sat Char.is_space rest = false.
Proof.
  intros Hs Hc. pose proof (clean_normal s) as Hn. unfold is_normalized in Hn.
  destruct (clean s) as [|x t] eqn:E; [by destruct a|].
  cbn [Str.is_empty orb] in Hn.
  destruct (norm_go_spec _ true Hn a c rest Hs Hc) as (Hsp & Hne & Hh & Ha).
  destruct a as [|y a]; cbn [Str.is_empty] in Ha; [discriminate Ha|]. done.
Qed.

Lemma clean_leaves_single_inner_spaces_witness :
  " "%char = " "%char /\ "a" <> "" /\ "b c" <> ""
  /\ last_sat Char.is_space "a" = false /\ head_sat Char.is_space "b c" = false.
Proof.
  apply (clean_leaves_single_inner_spaces
           ("  a" +:+ String Char.LF "  b  c ") "a" " " "b c"); reflexivity.
Defined.

(** X5. [clean] is idempotent: a cleaned line is left as it is. *)
Theorem clean_idempotent s : clean (clean s) = clean s.
Proof. apply clean_fixes_normalized, clean_normal. Qed.

Lemma collapse_empty t b : Str.collapse_ws t b = "" -> Str.all Char.is_space t = true.
Proof.
  revert b. induction t as [|c t IH]; intros b; cbn [Str.collapse_ws Str.all]; [done|].
  destruct (Char.is_space c); [|done]. destruct b; [|done]. apply IH.
Qed.

(** X6. [clean] returns the empty string exactly for an input of white
    space only (the empty input included). *)
Theorem clean_empty_iff s : clean s = "" <-> Str.all Char.is_space s = true.
Proof.
  unfold clean. split.
  - intros H. destruct (strip_spec s) as (w1 & w2 & Hs & Hw1 & Hw2 & Hh & _).
    apply collapse_empty in H.
    rewrite Hs, !all_app, Hw1, Hw2, H. done.
  - intros H. unfold Str.strip. by rewrite (drop_while_all _ s H).
Qed.

Lemma clean_empty_iff_witness :
  clean (String Char.LF "  ") = "" /\ clean "" = "".
Proof.
  split; apply clean_empty_iff; reflexivity.
Defined.

(* ================================================================== *)
(** * More on [parse_lines] *)

Lemma end_prev_none pre : end_prev None pre = None -> pre = "".
Proof.
  destruct pre as [|c pre]; [done|]. intros H.
  destruct (end_prev_nonempty (String c pre) None) as [d Hd]; [done | congruence].
Qed.

(** A pattern that starts with [^] matches at the start of the text only. *)
Lemma bol_search fl r text m :
  search fl (Bol +++ r) text = Some m ->
  exists p' s' c', matches fl r None text [] p' s' c'.
Proof.
  intros H. apply search_sound in H as (pre & rest & -> & (p' & s' & c' & M & _) & _).
  inv_cat M p1 s1 c1 A1 N1. inversion A1; subst.
  match goal with
  | H : None = end_prev None pre |- _ => symmetry in H; apply end_prev_none in H as ->
  | H : end_prev None pre = None |- _ => apply end_prev_none in H as ->
  end.
  rewrite app_nil_s. eauto.
Qed.

Lemma bol_search_complete fl r text p' s' c' :
  matches fl r None text [] p' s' c' -> is_Some (search fl (Bol +++ r) text).
Proof.
  intros M. apply (search_complete fl (Bol +++ r) "" text
                     {| whole := consumed text s'; groups := c' |}).
  exists p', s', c'. split; [|done].
  eapply M_cat; [apply M_bol | exact M].
Qed.

Lemma chrome_search_iff s :
  is_Some (search IGNORECASE re_chrome s) <-> is_chrome s.
Proof.
  unfold re_chrome, plus. split.
  - intros [m H]. apply bol_search in H as (p' & s' & c' & M).
    inversion M as [ | | | | | | | ? ? ? ? ? ? ? ? G | | | ]; subst; clear M.
    assert (Hl : forall l q t e q' t' e', matches IGNORECASE (Lits l) q t e q' t' e' ->
                   exists tok, t = tok +:+ t' /\ Str.lower tok = Str.lower l).
    { intros l q t e q' t' e' M. inversion M; subst.
      eexists. split; [done|].
      by apply (proj1 (lits_ok_lower_any IGNORECASE l _ eq_refl)). }
    inversion G as [ | | | | | ? ? ? ? ? ? ? ? M1 | ? ? ? ? ? ? ? ? M2 | | | | ];
      subst; clear G.
    { apply Hl in M1 as (tok & -> & Ht). exists tok, s'. auto. }
    inversion M2 as [ | | | | | ? ? ? ? ? ? ? ? M1 | ? ? ? ? ? ? ? ? M3 | | | | ];
      subst; clear M2.
    { apply Hl in M1 as (tok & -> & Ht). exists tok, s'. auto. }
    inversion M3 as [ | | | | | ? ? ? ? ? ? ? ? M1 | ? ? ? ? ? ? ? ? M4 | | | | ];
      subst; clear M3.
    { inv_cat M1 q1 t1 e1 B1 N1. inv_cat N1 q2 t2 e2 B2 B3.
      apply Hl in B1 as (w1 & -> & H1). apply Hl in B3 as (w2 & -> & H2).
      inversion B2 as [ | | | ? ? ? ? ws ? ? ? Hws Hlo _ | | | | | | | ]; subst.
      exists (w1 +:+ ws +:+ w2), s'. split; [by rewrite !app_assoc_s|].
      right. right. left. exists w1, ws, w2. repeat split; try done.
      intros ->. cbn in Hlo. lia. }
    inversion M4 as [ | | | | | ? ? ? ? ? ? ? ? M1 | ? ? ? ? ? ? ? ? M5 | | | | ];
      subst; clear M4.
    { apply Hl in M1 as (tok & -> & Ht). exists tok, s'. auto 6. }
    apply Hl in M5 as (tok & -> & Ht). exists tok, s'. auto 6.
  - intros (tok & rest & -> & H).
    assert (Hl : forall l, Str.lower tok = Str.lower l ->
                   matches IGNORECASE (Lits l) None (tok +:+ rest) []
                           (end_prev None tok) rest []).
    { intros l Hlow. apply M_lits.
      by apply (proj2 (lits_ok_lower_any IGNORECASE l _ eq_refl)). }
    destruct H as [H | [H | [H | [H | H]]]].
    + eapply bol_search_complete, M_group, M_alt_l, (Hl "NO." H).
    + eapply bol_search_complete, M_group, M_alt_r, M_alt_l, (Hl "ITEM" H).
    + destruct H as (t1 & ws & t2 & -> & H1 & Hne & Hws & H2).
      eapply bol_search_complete, M_group, M_alt_r, M_alt_r, M_alt_l.
      rewrite !app_assoc_s.
      eapply M_cat;
        [apply M_lits; by apply (proj2 (lits_ok_lower_any IGNORECASE _ _ eq_refl))|].
      eapply M_cat; [apply M_rep; [exact Hws | | exact I]|].
      { destruct ws; [done | cbn; lia]. }
      apply M_lits. by apply (proj2 (lits_ok_lower_any IGNORECASE _ _ eq_refl)).
    + eapply bol_search_complete, M_group, M_alt_r, M_alt_r, M_alt_r, M_alt_l,
        (Hl "SHIP VIA" H).
    + eapply bol_search_complete, M_group, M_alt_r, M_alt_r, M_alt_r, M_alt_r,
        (Hl "SO TYPE" H).
Qed.

(** X7. A line that starts with a column-header token contributes no
    item, whatever follows the token: table chrome is dropped before the
    freight test and the item patterns are tried. *)
Theorem chrome_line_contributes_nothing raw :
  is_chrome (clean raw) -> line_items raw = Ok [].
Proof.
  intros H. apply chrome_search_iff in H as [m H].
  unfold line_items, parse_line. rewrite H. cbn [is_match].
  by destruct (Str.is_empty (clean raw)).
Qed.

Lemma chrome_line_contributes_nothing_witness :
  line_items "  Item   Freight 12.34" = Ok []
  /\ line_items "each   ordered 1 AB: Widget 2.00 4.00" = Ok [].
Proof.
  split.
  - apply chrome_line_contributes_nothing.
    exists "Item", " Freight 12.34". split; [reflexivity|]. right. left. reflexivity.
  - apply chrome_line_contributes_nothing.
    exists "each ordered", " 1 AB: Widget 2.00 4.00". split; [reflexivity|].
    right. right. left. exists "each", " ", "ordered". repeat split; done.
Defined.

Lemma item_search_needs_digit r s m :
  search no_flags (Bol +++ plus Digit +++ r) s = Some m ->
  head_sat Char.is_digit s = true.
Proof.
  intros H. apply bol_search in H as (p' & s' & c' & M).
  unfold plus in M. inv_cat M p1 s1 c1 A1 N1.
  inversion A1 as [ | | | ? ? ? ? v ? ? ? Hv Hlo _ | | | | | | | ]; subst.
  destruct v as [|x v]; [cbn in Hlo; lia|].
  rewrite app_cons_s. cbn [head_sat]. cbn [Str.all] in Hv.
  by apply andb_prop in Hv as [Hx _].
Qed.

(** X8. A line whose normalized form does not begin with a digit and
    does not hold the word Freight contributes nothing: it is dropped
    without an error. *)
Theorem line_without_digit_or_freight_is_dropped raw :
  head_sat Char.is_digit (clean raw) = false ->
  ~ has_word "Freight" (clean raw) ->
  line_items raw = Ok [].
Proof.
  intros Hd Hf. unfold line_items, parse_line.
  destruct (Str.is_empty (clean raw)); [done|].
  destruct (is_match (search IGNORECASE re_chrome (clean raw))); [done|].
  destruct (search IGNORECASE re_freight (clean raw)) as [mf|] eqn:Ef.
  { destruct Hf. apply freight_search_iff. eauto. }
  cbn [is_match].
  destruct (search no_flags re_full_item (clean raw)) as [m|] eqn:E1.
  { apply item_search_needs_digit in E1. congruence. }
  destruct (search no_flags re_short_item (clean raw)) as [m|] eqn:E2; [|done].
  apply item_search_needs_digit in E2. congruence.
Qed.

Lemma line_without_digit_or_freight_is_dropped_witness :
  line_items "Subtotal 99.00" = Ok [].
Proof.
  apply line_without_digit_or_freight_is_dropped.
  - reflexivity.
  - intros H. apply freight_search_iff in H as [m H].
    vm_compute in H. discriminate H.
Defined.

Lemma line_items_cases raw :
  line_items raw = Ok [] \/ (exists it, line_items raw = Ok [it])
  \/ exists e, line_items raw = Raise e.
Proof.
  unfold line_items, parse_line.
  destruct (Str.is_empty (clean raw)); [by left|].
  destruct (is_match (search IGNORECASE re_chrome (clean raw))); [by left|].
  destruct (is_match (search IGNORECASE re_freight (clean raw))).
  { destruct (match search no_flags re_trailing_amount (clean raw) with
              | Some m => float_of_string (group m 1)
              | None => Ok zero
              end); cbn [bind app]; eauto. }
  destruct (search no_flags re_full_item (clean raw)) as [m|].
  - destruct (if negb (Str.is_empty (group m 3))
              then do x <- float_of_string (group m 3); Ok (NFloat x)
              else Ok (NInt 1)); cbn [bind]; [|eauto].
    destruct (if negb (Str.is_empty (group m 7))
              then float_of_string (Str.remove_char "," (group m 7))
              else Ok zero); cbn [bind app]; eauto.
  - destruct (search no_flags re_short_item (clean raw)); cbn [app]; eauto.
Qed.

Lemma line_items_at_most_one raw here :
  line_items raw = Ok here -> (length here <= 1)%nat.
Proof.
  intros H. destruct (line_items_cases raw) as [E | [[it E] | [e E]]];
    rewrite E in H; [| |discriminate H]; injection H as <-; cbn; lia.
Qed.

Lemma scan_pieces raws : forall items,
  scan raws = Ok items ->
  exists pieces,
    Forall2 (fun raw piece => line_items raw = Ok piece) raws pieces
    /\ items = concat pieces.
Proof.
  induction raws as [|raw raws IH]; intros items; cbn [scan].
  - intros [= <-]. exists []. split; [constructor | done].
  - destruct (line_items raw) as [here|] eqn:E; [|discriminate]. cbn [bind].
    destruct (scan raws) as [rest|]; [|discriminate]. cbn [bind].
    intros [= <-]. destruct (IH rest eq_refl) as (pieces & Hall & ->).
    exists (here :: pieces). split; [by constructor | done].
Qed.

(** X9. The items [parse_lines] returns come from the lines of the block
    in order, each line giving none or one item; so there are never more
    items than lines. *)
Theorem items_follow_the_lines text items :
  parse_lines text = Ok items ->
  (exists pieces,
      Forall2 (fun raw piece => line_items raw = Ok piece /\ (length piece <= 1)%nat)
              (Str.splitlines (table_block text)) pieces
      /\ items = concat pieces)
  /\ (length items <= length (Str.splitlines (table_block text)))%nat.
Proof.
  rewrite parse_lines_scan. intros H.
  apply scan_pieces in H as (pieces & Hall & ->).
  assert (Hall' : Forall2 (fun raw piece =>
                             line_items raw = Ok piece /\ (length piece <= 1)%nat)
                          (Str.splitlines (table_block text)) pieces).
  { eapply Forall2_impl; [exact Hall|]. intros raw piece Hp.
    split; [done | exact (line_items_at_most_one raw piece Hp)]. }
  split; [by exists pieces|].
  clear Hall. induction Hall' as [|raw piece raws pieces [_ Hp] _ IH]; [done|].
  cbn [concat]. rewrite length_app. cbn [length]. lia.
Qed.

Lemma items_follow_the_lines_witness :
  (length [brass_item; freight_item]
   <= length (Str.splitlines
                (table_block (brass_line +:+ String Char.LF
                                (String Char.LF freight_line)))))%nat.
Proof.
  apply (items_follow_the_lines
           (brass_line +:+ String Char.LF (String Char.LF freight_line))).
  vm_compute. reflexivity.
Defined.

(** ** Where [parse_lines] raises *)

Lemma scan_raises raws e :
  scan raws = Raise e -> exists raw, In raw raws /\ line_items raw = Raise e.
Proof.
  induction raws as [|raw raws IH]; cbn [scan]; [discriminate|].
  destruct (line_items raw) as [here|e'] eqn:E; cbn [bind].
  - destruct (scan raws) as [rest|e'']; cbn [bind]; [discriminate|].
    intros [= <-]. destruct (IH eq_refl) as (r & Hin & Hr).
    exists r. split; [by right | done].
  - intros [= <-]. exists raw. split; [by left | done].
Qed.

(** The exact failure of a line: it matches the full item pattern and
    [float] rejects its quantity field or its amount field. *)
Lemma line_items_raise raw e :
  line_items raw = Raise e ->
  e = ValueError
  /\ exists m,
       search no_flags re_full_item (clean raw) = Some m
       /\ (float_of_string (group m 3) = Raise ValueError
           \/ float_of_string (Str.remove_char "," (group m 7)) = Raise ValueError).
Proof.
  intros H. destruct (line_items_raise_only_full_item raw e H) as [-> [m Hm]].
  split; [done|]. exists m. split; [done|].
  unfold line_items, parse_line in H.
  destruct (Str.is_empty (clean raw)); [discriminate|].
  destruct (is_match (search IGNORECASE re_chrome (clean raw))); [discriminate|].
  destruct (is_match (search IGNORECASE re_freight (clean raw))).
  { destruct (search no_flags re_trailing_amount (clean raw)) as [ma|] eqn:E;
      [|discriminate].
    apply trailing_amount_found in E as (? & ? & _ & Ha & _).
    apply float_of_amount in Ha as [y Hy]. rewrite Hy in H. discriminate. }
  rewrite Hm in H.
  destruct (float_of_string (group m 3)) as [q|e3] eqn:E3.
  - right. destruct (float_of_string (Str.remove_char "," (group m 7))) as [a|e7] eqn:E7.
    + destruct (negb (Str.is_empty (group m 3))), (negb (Str.is_empty (group m 7)));
        discriminate.
    + by rewrite (float_of_string_error _ _ E7).
  - left. by rewrite (float_of_string_error _ _ E3).
Qed.

(** X10. [parse_lines] raises nothing but [ValueError], and only when some
    line of the block matches the full item pattern with a quantity field
    or an amount field that [float] rejects. *)
Theorem parse_lines_raises_only_on_full_item_lines text e :
  parse_lines text = Raise e ->
  e = ValueError
  /\ exists raw m,
       In raw (Str.splitlines (table_block text))
       /\ search no_flags re_full_item (clean raw) = Some m
       /\ (float_of_string (group m 3) = Raise ValueError
           \/ float_of_string (Str.remove_char "," (group m 7)) = Raise ValueError).
Proof.
  rewrite parse_lines_scan. intros H.
  apply scan_raises in H as (raw & Hin & H).
  apply line_items_raise in H as (-> & m & Hm & Hf).
  split; [done|]. by exists raw, m.
Qed.

Lemma parse_lines_raises_only_on_full_item_lines_witness :
  ValueError = ValueError
  /\ exists raw m,
       In raw (Str.splitlines (table_block (brass_line +:+ String Char.LF bad_qty_line)))
       /\ search no_flags re_full_item (clean raw) = Some m
       /\ (float_of_string (group m 3) = Raise ValueError
           \/ float_of_string (Str.remove_char "," (group m 7)) = Raise ValueError).
Proof.
  apply (parse_lines_raises_only_on_full_item_lines
           (brass_line +:+ String Char.LF bad_qty_line)).
  vm_compute. reflexivity.
Defined.

(** ** The SKU of an item line *)

Lemma item_sku_group fl r s m :
  search fl r s = Some m -> In 1%nat (binds r) ->
  group_chars fl 1 (atom_ok no_flags upper_digit_dash) r ->
  group m 1 <> "" /\ Str.all is_upper_digit_dash (group m 1) = true.
Proof.
  intros H Hb Hg.
  destruct (search_group_chars fl r s m 1%nat _ H Hb Hg) as [Hne Hall].
  split; [done|]. eapply all_impl; [|exact Hall].
  intros x. by rewrite upper_digit_dash_ok.
Qed.

Lemma full_item_sku s m :
  search no_flags re_full_item s = Some m ->
  group m 1 <> "" /\ Str.all is_upper_digit_dash (group m 1) = true.
Proof.
  intros H. eapply item_sku_group; [exact H | cbn; auto |].
  unfold re_full_item, plus, opt, lazy_star. solve_group_chars.
Qed.

Lemma short_item_sku s m :
  search no_flags re_short_item s = Some m ->
  group m 1 <> "" /\ Str.all is_upper_digit_dash (group m 1) = true.
Proof.
  intros H. eapply item_sku_group; [exact H | cbn; auto |].
  unfold re_short_item, plus, opt, lazy_star. solve_group_chars.
Qed.

(** What a line gives is a freight item or an item with a proper SKU. *)
Lemma line_items_kinds raw here :
  line_items raw = Ok here ->
  Forall (fun it => freight_shaped it \/ material_item it) here.
Proof.
  unfold line_items, parse_line.
  destruct (Str.is_empty (clean raw)); [intros [= <-]; constructor|].
  destruct (is_match (search IGNORECASE re_chrome (clean raw)));
    [intros [= <-]; constructor|].
  destruct (is_match (search IGNORECASE re_freight (clean raw))).
  { destruct (match search no_flags re_trailing_amount (clean raw) with
              | Some m => float_of_string (group m 1)
              | None => Ok zero
              end) as [ship|]; [|discriminate].
    intros [= <-]. constructor; [|constructor]. left. by exists ship. }
  destruct (search no_flags re_full_item (clean raw)) as [m|] eqn:E1.
  - destruct (if negb (Str.is_empty (group m 3))
              then do x <- float_of_string (group m 3); Ok (NFloat x)
              else Ok (NInt 1)) as [q|]; [|discriminate].
    cbn [bind].
    destruct (if negb (Str.is_empty (group m 7))
              then float_of_string (Str.remove_char "," (group m 7))
              else Ok zero) as [a|]; [|discriminate].
    intros [= <-]. constructor; [|constructor]. right.
    destruct (full_item_sku _ _ E1) as [Hne Hall]. by eexists _, _, _, _.
  - destruct (search no_flags re_short_item (clean raw)) as [m|] eqn:E2.
    + intros [= <-]. constructor; [|constructor]. right.
      destruct (short_item_sku _ _ E2) as [Hne Hall]. by eexists _, _, _, _.
    + intros [= <-]. constructor.
Qed.

Lemma scan_kinds raws : forall items,
  scan raws = Ok items ->
  Forall (fun it => freight_shaped it \/ material_item it) items.
Proof.
  induction raws as [|raw raws IH]; intros items; cbn [scan].
  - intros [= <-]. constructor.
  - destruct (line_items raw) as [here|] eqn:E; [|discriminate]. cbn [bind].
    destruct (scan raws) as [rest|]; [|discriminate]. cbn [bind].
    intros [= <-]. apply Forall_app. split; [by eapply line_items_kinds | by apply IH].
Qed.

(** X11. Every item [parse_lines] returns is the freight item (empty SKU,
    fixed name, quantity 1) or carries a SKU that is not empty and is
    made of upper-case letters, digits and hyphens only. *)
Theorem items_have_proper_skus text items :
  parse_lines text = Ok items ->
  Forall (fun it =>
            (exists ship, it = item "" "Freight - UPS Ground" (NInt 1) zero ship)
            \/ (exists s n q a,
                  it = item s n q a zero
                  /\ s <> "" /\ Str.all is_upper_digit_dash s = true))
         items.
Proof.
  rewrite parse_lines_scan. intros H. apply scan_kinds in H.
  eapply Forall_impl; [exact H|]. intros it [Hf | Hm]; [by left | by right].
Qed.

Lemma items_have_proper_skus_witness :
  Forall (fun it =>
            (exists ship, it = item "" "Freight - UPS Ground" (NInt 1) zero ship)
            \/ (exists s n q a,
                  it = item s n q a zero
                  /\ s <> "" /\ Str.all is_upper_digit_dash s = true))
         [brass_item; freight_item].
Proof.
  apply (items_have_proper_skus (brass_line +:+ String Char.LF freight_line)).
  vm_compute. reflexivity.
Defined.

(* ================================================================== *)
(** * More on [to_craftybase_rows] *)

Lemma make_row_fields meta nt it row :
  make_row meta nt it = Ok row ->
  material_sku row = get_str (sku it) /\ material_name row = get_str (name it)
  /\ vendor row = VENDOR_NAME /\ lot_number row = ""
  /\ tax row = zero /\ discount row = zero /\ paid row = "Y"
  /\ purchase_date row = meta !! "purchase_date" /\ code row = meta !! "invoice_no"
  /\ notes row = nt.
Proof.
  unfold make_row. destruct (int_of_num (qty_or_1 (qty it))) as [q|e]; [|discriminate].
  cbn [bind]. intros H. injection H as <-. cbn. repeat split.
Qed.

(** X12. [to_craftybase_rows] gives one row per item, in order; each row
    copies the item's SKU and name (a missing one as ""), and all rows
    share the constant fields and the header's date, invoice number and
    notes. *)
Theorem rows_mirror_items meta items rows :
  to_craftybase_rows meta items = Ok rows ->
  length rows = length items
  /\ Forall2 (fun it row =>
                material_sku row = get_str (sku it)
                /\ material_name row = get_str (name it)
                /\ vendor row = VENDOR_NAME /\ lot_number row = ""
                /\ tax row = zero /\ discount row = zero /\ paid row = "Y"
                /\ purchase_date row = meta !! "purchase_date"
                /\ code row = meta !! "invoice_no"
                /\ notes row = make_notes meta)
             items rows.
Proof.
  intros H. apply rows_spec in H. split.
  - symmetry. by eapply Forall2_length.
  - eapply Forall2_impl; [exact H|]. intros it row Hrow.
    by apply make_row_fields in Hrow.
Qed.

Lemma rows_mirror_items_witness :
  length [row_of brass_item 2 "Materials" f7_5 zero f7_5;
          row_of freight_item 1 "Shipping" zero f12_34 f12_34]
  = length [brass_item; freight_item].
Proof.
  apply (rows_mirror_items ∅ [brass_item; freight_item]). vm_compute. reflexivity.
Defined.

(** ** When [to_craftybase_rows] raises *)

Lemma make_row_raises meta nt it e :
  make_row meta nt it = Raise e <-> qty_error it = Some e.
Proof.
  unfold make_row, qty_error.
  destruct (qty it) as [[z|[s|s| |s m x]]|]; cbn.
  - destruct (z =? 0); cbn; split; discriminate.
  - split; discriminate.
  - split; intros [= <-]; done.
  - split; intros [= <-]; done.
  - split; discriminate.
  - split; discriminate.
Qed.

Lemma make_row_ok meta nt it :
  qty_error it = None <-> exists row, make_row meta nt it = Ok row.
Proof.
  destruct (make_row meta nt it) as [row|e] eqn:E.
  - split; [eauto|]. intros _.
    destruct (qty_error it) as [e|] eqn:Eq; [|done].
    apply (make_row_raises meta nt) in Eq. congruence.
  - apply make_row_raises in E. rewrite E. split; [discriminate|].
    intros [row H]. discriminate.
Qed.

Lemma rows_loop_raises meta nt items : forall rows e,
  rows_loop meta nt items rows = Raise e <->
  exists pre it post,
    items = pre ++ it :: post
    /\ Forall (fun i => qty_error i = None) pre /\ qty_error it = Some e.
Proof.
  induction items as [|it items IH]; intros rows e; cbn [rows_loop].
  - split; [discriminate|]. intros (pre & i & post & H & _). by destruct pre.
  - destruct (make_row meta nt it) as [row|e'] eqn:E; cbn [bind].
    + assert (Hok : qty_error it = None) by (apply (make_row_ok meta nt); eauto).
      rewrite IH. split.
      * intros (pre & i & post & -> & Hpre & Hi).
        exists (it :: pre), i, post. split; [done|]. split; [by constructor | done].
      * intros (pre & i & post & Heq & Hpre & Hi). destruct pre as [|j pre].
        -- injection Heq as -> ->. congruence.
        -- injection Heq as -> ->. inversion Hpre; subst. by exists pre, i, post.
    + apply make_row_raises in E. split.
      * intros [= <-]. exists [], it, items. split; [done|]. split; [constructor | done].
      * intros (pre & i & post & Heq & Hpre & Hi). destruct pre as [|j pre].
        -- injection Heq as -> ->. congruence.
        -- injection Heq as -> ->. inversion Hpre; subst. congruence.
Qed.

(** X13. [to_craftybase_rows] raises exactly when some item's quantity is
    an infinite float ([OverflowError]) or a NaN ([ValueError]); the
    first such item decides the exception, and nothing else in the items
    or in the header makes it fail. *)
Theorem rows_raise_exactly_on_bad_quantity meta items :
  (forall e,
      to_craftybase_rows meta items = Raise e <->
      exists pre it post,
        items = pre ++ it :: post
        /\ Forall (fun i => qty_error i = None) pre /\ qty_error it = Some e)
  /\ ((exists rows, to_craftybase_rows meta items = Ok rows) <->
      Forall (fun i => qty_error i = None) items).
Proof.
  split; [intros e; apply rows_loop_raises|].
  destruct (to_craftybase_rows meta items) as [rows|e] eqn:E.
  - split; [|eauto]. intros _. apply rows_spec in E.
    induction E as [|it row items rows Hrow _ IH]; constructor; [|done].
    apply (make_row_ok meta (make_notes meta)). eauto.
  - apply rows_loop_raises in E as (pre & it & post & -> & _ & Hit).
    split; [intros [rows H]; discriminate|].
    intros H. apply Forall_app in H as [_ H]. inversion H; subst. congruence.
Qed.

Lemma rows_raise_exactly_on_bad_quantity_witness :
  to_craftybase_rows ∅ [brass_item;
                        item "AB" "Widget" (NFloat (S754_infinity false)) f7_5 zero;
                        item "CD" "Gadget" (NFloat S754_nan) f7_5 zero]
  = Raise OverflowError.
Proof.
  apply (proj1 (rows_raise_exactly_on_bad_quantity ∅ _) OverflowError).
  exists [brass_item], (item "AB" "Widget" (NFloat (S754_infinity false)) f7_5 zero),
         [item "CD" "Gadget" (NFloat S754_nan) f7_5 zero].
  split; [reflexivity|]. split; [repeat constructor | reflexivity].
Defined.

(** ** A quantity of zero *)

Lemma shiftl_zero_iff (m : positive) (e : Z) :
  Z.shiftl (Zpos m) e = 0 <-> e < 0 /\ Zpos m < 2 ^ (- e).
Proof.
  destruct (Z.leb_spec 0 e) as [He|He].
  - rewrite Z.shiftl_mul_pow2 by done.
    assert (0 < 2 ^ e) by (apply Z.pow_pos_nonneg; lia). split; [nia | lia].
  - rewrite shiftl_neg_quot by done.
    assert (0 < 2 ^ (- e)) by (apply Z.pow_pos_nonneg; lia).
    rewrite Z.quot_small_iff by lia. split; [lia | lia].
Qed.

Lemma small_float_iff s m e :
  (e < 0 /\ Zpos m < 2 ^ (- e)) <->
  (inject_Z (-1) < to_Q (S754_finite s m e) /\ to_Q (S754_finite s m e) < inject_Z 1)%Q.
Proof.
  unfold to_Q. destruct (Z.leb_spec 0 e) as [He|He].
  - assert (0 < 2 ^ e) by (apply Z.pow_pos_nonneg; lia).
    unfold Qlt, inject_Z; cbn [Qnum Qden]. destruct s; cbn [cond_Zopp]; split; nia.
  - assert (Hp : 0 < 2 ^ (- e)) by (apply Z.pow_pos_nonneg; lia).
    unfold Qlt, inject_Z; cbn [Qnum Qden]. rewrite Z2Pos.id by done.
    destruct s; cbn [cond_Zopp]; split; lia.
Qed.

(** X14. A row gets [line_item_quantity] 0 exactly when the item's
    quantity is a float that is not zero and lies strictly between -1
    and 1: such a quantity is truthy, so it is not replaced by 1, and
    [int] cuts it down to 0. *)
Theorem quantity_zero_iff_small_float meta items rows :
  to_craftybase_rows meta items = Ok rows ->
  Forall2 (fun it row =>
             line_item_quantity row = 0 <->
             exists s m e,
               qty it = Some (NFloat (S754_finite s m e))
               /\ (inject_Z (-1) < to_Q (S754_finite s m e)
                   /\ to_Q (S754_finite s m e) < inject_Z 1)%Q)
          items rows.
Proof.
  intros H. apply rows_spec in H.
  eapply Forall2_impl; [exact H|]. intros it row Hrow.
  apply make_row_inv in Hrow as (Hq & _).
  destruct (qty it) as [[z|[s|s| |s m e]]|] eqn:Eq; cbn in Hq.
  - split; [|intros (? & ? & ? & [=] & _)].
    destruct (Z.eqb_spec z 0); cbn in Hq; injection Hq as <-; lia.
  - injection Hq as <-. split; [done | intros (? & ? & ? & [=] & _)].
  - discriminate.
  - discriminate.
  - injection Hq as <-. split.
    + intros H0. exists s, m, e. split; [done|].
      apply small_float_iff, shiftl_zero_iff. destruct s; cbn in H0; lia.
    + intros (s' & m' & e' & [= <- <- <-] & H0).
      apply small_float_iff, shiftl_zero_iff in H0. destruct s; cbn; lia.
  - injection Hq as <-. split; [done | intros (? & ? & ? & [=] & _)].
Qed.

Lemma quantity_zero_iff_small_float_witness :
  Forall2 (fun it row =>
             line_item_quantity row = 0 <->
             exists s m e,
               qty it = Some (NFloat (S754_finite s m e))
               /\ (inject_Z (-1) < to_Q (S754_finite s m e)
                   /\ to_Q (S754_finite s m e) < inject_Z 1)%Q)
          [item "AB" "Widget" (NFloat (S754_finite false 4503599627370496 (-53)))
                f7_5 zero]
          [row_of (item "AB" "Widget"
                        (NFloat (S754_finite false 4503599627370496 (-53))) f7_5 zero)
                  0 "Materials" f7_5 zero f7_5].
Proof.
  apply (quantity_zero_iff_small_float ∅). vm_compute. reflexivity.
Defined.

(* ================================================================== *)
(** * From extracted items to rows *)

Lemma add_zero_l_or_0 v : add zero (float_or_0 v) = float_or_0 v.
Proof. destruct v as [[s|s| |s m e]|]; reflexivity. Qed.

Lemma add_or_0_zero_r v : add (float_or_0 v) zero = float_or_0 v.
Proof. destruct v as [[s|s| |s m e]|]; reflexivity. Qed.

Lemma freight_item_row meta nt ship row :
  make_row meta nt (item "" "Freight - UPS Ground" (NInt 1) zero ship) = Ok row ->
  line_item_category_id row = "Shipping" /\ line_item_quantity row = 1
  /\ line_item_price row = zero /\ grand_total row = row_shipping row.
Proof.
  intros H. apply make_row_inv in H as (Hq & Hc & Hp & Hs & Ht).
  cbn in Hq. injection Hq as <-.
  assert (Hf : is_freight (item "" "Freight - UPS Ground" (NInt 1) zero ship) = true)
    by reflexivity.
  rewrite Hf in Hc, Hp. rewrite Ht, Hs. cbn [price_subtotal shipping item].
  change (float_or_0 (Some zero)) with zero. by rewrite add_zero_l_or_0.
Qed.

Lemma material_item_row meta nt it row :
  material_item it -> make_row meta nt it = Ok row ->
  line_item_category_id row = "Materials" /\ row_shipping row = zero
  /\ grand_total row = line_item_price row.
Proof.
  intros (s & n & q & a & -> & Hne & _) H.
  apply make_row_inv in H as (_ & Hc & Hp & Hs & Ht).
  assert (Hf : is_freight (item s n q a zero) = false).
  { unfold is_freight. cbn. by destruct s. }
  rewrite Hf in Hc, Hp. rewrite Ht, Hs, Hp. cbn [price_subtotal shipping item].
  change (float_or_0 (Some zero)) with zero. by rewrite add_or_0_zero_r.
Qed.

(** X15. For the items [parse_lines] extracts, the freight test that
    [to_craftybase_rows] re-derives agrees with the extractor: a freight
    item gives a Shipping row with quantity 1, price 0.0 and
    [grand_total] equal to its shipping; every other item gives a
    Materials row with shipping 0.0 and [grand_total] equal to its
    [line_item_price]. *)
Theorem extracted_items_give_consistent_rows text meta items rows :
  parse_lines text = Ok items -> to_craftybase_rows meta items = Ok rows ->
  Forall2 (fun it row =>
             (freight_shaped it
              /\ line_item_category_id row = "Shipping"
              /\ line_item_quantity row = 1 /\ line_item_price row = zero
              /\ grand_total row = row_shipping row)
             \/ (material_item it
                 /\ line_item_category_id row = "Materials"
                 /\ row_shipping row = zero
                 /\ grand_total row = line_item_price row))
          items rows.
Proof.
  rewrite parse_lines_scan. intros Hp Hr.
  apply scan_kinds in Hp. apply rows_spec in Hr.
  induction Hr as [|it row items rows Hrow _ IH]; [constructor|].
  inversion Hp as [|? ? Hit Hrest]; subst. constructor; [|by apply IH].
  destruct Hit as [[ship ->] | Hm].
  - left. split; [by exists ship|]. by eapply freight_item_row.
  - right. split; [done|]. by eapply material_item_row.
Qed.

Lemma extracted_items_give_consistent_rows_witness :
  Forall2 (fun it row =>
             (freight_shaped it
              /\ line_item_category_id row = "Shipping"
              /\ line_item_quantity row = 1 /\ line_item_price row = zero
              /\ grand_total row = row_shipping row)
             \/ (material_item it
                 /\ line_item_category_id row = "Materials"
                 /\ row_shipping row = zero
                 /\ grand_total row = line_item_price row))
          [brass_item; freight_item]
          [row_of brass_item 2 "Materials" f7_5 zero f7_5;
           row_of freight_item 1 "Shipping" zero f12_34 f12_34].
Proof.
  apply (extracted_items_give_consistent_rows
           (brass_line +:+ String Char.LF freight_line) ∅);
    vm_compute; reflexivity.
Defined.

(** ** Notes *)

Lemma header_value_nonempty text key v :
  parse_header text !! key = Some v -> v <> "".
Proof.
  intros H. apply header_value_source in H as (m & Hs & -> & _).
  unfold header_search in Hs.
  assert (Hg : forall fl r, search fl r text = Some m -> In 1%nat (binds r) ->
                 group_chars fl 1 (fun _ => true) r -> group m 1 <> "").
  { intros fl r Hm Hb Hc. by destruct (search_group_chars fl r text m 1%nat _ Hm Hb Hc). }
  repeat case_decide; subst; try discriminate.
  - eapply Hg; [exact Hs | cbn; auto |].
    unfold re_invoice_no, plus, star. solve_group_chars.
  - eapply Hg; [exact Hs | cbn; auto |].
    unfold re_purchase_date, plus, star, upto, times. solve_group_chars.
  - eapply Hg; [exact Hs | cbn; auto |].
    unfold re_so_number, plus, star. solve_group_chars.
  - eapply Hg; [exact Hs | cbn; auto |].
    unfold re_shipment_number, plus, star. solve_group_chars.
  - apply or_else_some in Hs as [Hs | [_ Hs]].
    + eapply Hg; [exact Hs | cbn; auto |].
      unfold re_tracking, plus, star. solve_group_chars.
    + eapply Hg; [exact Hs | cbn; auto |].
      unfold re_tracking_heading, plus, star. solve_group_chars.
Qed.

Lemma add_part_nil meta key label parts :
  add_part meta key label parts = [] <->
  parts = [] /\ (meta !! key = None \/ meta !! key = Some "").
Proof.
  unfold add_part. destruct (meta !! key) as [v|].
  - destruct v as [|c v]; cbn [Str.is_empty].
    + split; [auto | by intros [-> _]].
    + split.
      * intros H. by destruct parts.
      * intros [_ [H | H]]; discriminate.
  - split; [auto | by intros [-> _]].
Qed.

(** X16. The notes are missing exactly when each of so_number,
    shipment_number and tracking is missing from the header or is the
    empty string; for a header that [parse_header] built, exactly when
    none of the three keys is present. *)
Theorem notes_missing_iff :
  (forall meta : gmap string string,
      make_notes meta = None <->
      (meta !! "so_number" = None \/ meta !! "so_number" = Some "")
      /\ (meta !! "shipment_number" = None \/ meta !! "shipment_number" = Some "")
      /\ (meta !! "tracking" = None \/ meta !! "tracking" = Some ""))
  /\ (forall text,
         make_notes (parse_header text) = None <->
         parse_header text !! "so_number" = None
         /\ parse_header text !! "shipment_number" = None
         /\ parse_header text !! "tracking" = None).
Proof.
  assert (Hgen : forall meta : gmap string string,
      make_notes meta = None <->
      (meta !! "so_number" = None \/ meta !! "so_number" = Some "")
      /\ (meta !! "shipment_number" = None \/ meta !! "shipment_number" = Some "")
      /\ (meta !! "tracking" = None \/ meta !! "tracking" = Some "")).
  { intros meta. unfold make_notes.
    destruct (add_part meta "tracking" "Tracking" _) as [|x l] eqn:E.
    - apply add_part_nil in E as [E H3]. apply add_part_nil in E as [E H2].
      apply add_part_nil in E as [_ H1]. done.
    - split; [discriminate|]. intros (H1 & H2 & H3).
      assert (add_part meta "tracking" "Tracking"
                (add_part meta "shipment_number" "Shipment"
                   (add_part meta "so_number" "SO" [])) = []) as E'.
      { apply add_part_nil. split; [|done]. apply add_part_nil. split; [|done].
        by apply add_part_nil. }
      congruence. }
  split; [exact Hgen|]. intros text. rewrite Hgen.
  assert (Hne : forall key, parse_header text !! key = None
                            \/ parse_header text !! key = Some ""
                            <-> parse_header text !! key = None).
  { intros key. split; [|auto]. intros [H | H]; [done|].
    by apply header_value_nonempty in H. }
  by rewrite !Hne.
Qed.

Lemma notes_missing_iff_witness :
  make_notes (parse_header header_text) = None.
Proof.
  apply (proj2 notes_missing_iff header_text). vm_compute. auto.
Defined.

(* ================================================================== *)
(** * The table region *)

Section LazyFirst.
Variable fl : flags.
Context {A : Type}.

(** A lazy repetition stops at the first split its continuation accepts. *)
Lemma rep_lazy_first a s :
  forall p (k : option ascii -> string -> option A) res,
  rep_lazy fl a 0 None p s k = Some res ->
  exists v rest,
    s = v +:+ rest /\ Str.all (atom_ok fl a) v = true
    /\ k (end_prev p v) rest = Some res
    /\ forall v1 r1, s = v1 +:+ r1 ->
                     (String.length v1 < String.length v)%nat ->
                     k (end_prev p v1) r1 = None.
Proof.
  induction s as [|x s IH]; intros p k res H; cbn [rep_lazy Nat.eqb] in H.
  - apply or_else_some in H as [H | [_ H]]; [|discriminate].
    exists "", "". repeat split; try done. intros v1 r1 _ Hlt. cbn in Hlt. lia.
  - apply or_else_some in H as [H | [Hnone H]].
    + exists "", (String x s). repeat split; try done.
      intros v1 r1 _ Hlt. cbn in Hlt. lia.
    + destruct (atom_ok fl a x && can_more None) eqn:E; [|discriminate].
      apply andb_prop in E as [Ex _]. cbn [Nat.pred dec] in H.
      apply IH in H as (v & rest & -> & Hv & Hk & Hmin).
      exists (String x v), rest. split; [done|].
      split; [cbn [Str.all]; by rewrite Ex, Hv|]. split; [done|].
      intros v1 r1 Heq Hlt. destruct v1 as [|y v1].
      * rewrite app_nil_s in Heq. by subst r1.
      * rewrite !app_cons_s in Heq. injection Heq as -> Heq.
        apply (Hmin v1 r1 Heq). cbn in Hlt. lia.
Qed.

Lemma run_cat_step r1 r2 p s c (k : option ascii -> string -> caps -> option A) res :
  run fl (Cat r1 r2) p s c k = Some res ->
  exists p1 s1 c1, matches fl r1 p s c p1 s1 c1 /\ run fl r2 p1 s1 c1 k = Some res.
Proof. cbn [run]. apply run_sound. Qed.

(** A lazy group takes the shortest text after which the rest of the
    pattern matches. *)
Lemma run_lazy_group_first n a r2 p s c
      (k : option ascii -> string -> caps -> option A) res :
  run fl (Cat (Group n (Rep a 0 None false)) r2) p s c k = Some res ->
  exists v rest,
    s = v +:+ rest
    /\ run fl r2 (end_prev p v) rest ((n, v) :: c) k = Some res
    /\ forall v1 r1, s = v1 +:+ r1 ->
                     (String.length v1 < String.length v)%nat ->
                     run fl r2 (end_prev p v1) r1 ((n, v1) :: c) k = None.
Proof.
  cbn [run]. intros H.
  apply rep_lazy_first in H as (v & rest & -> & _ & Hk & Hmin).
  rewrite consumed_app in Hk. exists v, rest. split; [done|]. split; [done|].
  intros v1 r1 Heq Hlt. specialize (Hmin v1 r1 Heq Hlt). cbn beta in Hmin.
  rewrite Heq, consumed_app in Hmin. exact Hmin.
Qed.

End LazyFirst.

Lemma lf_atom fl x : atom_ok fl (Lit Char.LF) x = true -> x = Char.LF.
Proof.
  intros H.
  destruct x as [b0 b1 b2 b3 b4 b5 b6 b7]; destruct fl as [[] d];
    destruct b0, b1, b2, b3, b4, b5, b6, b7;
    first [reflexivity | vm_compute in H; discriminate H].
Qed.

Lemma marker_line_inv p r c p' s' c' :
  matches DOTALL_IGNORECASE re_marker_line p r c p' s' c' ->
  c' = c /\ exists mk, r = String Char.LF (mk +:+ s')
                       /\ (Str.lower mk = "thank you" \/ Str.lower mk = "sales total"
                           \/ Str.lower mk = "freight total").
Proof.
  unfold re_marker_line. intros M.
  inv_cat M p1 s1 c1 A1 N1.
  inversion A1 as [ | ? x ? ? ? Hx | | | | | | | | | ]; subst; clear A1.
  apply lf_atom in Hx as ->.
  assert (Hl : forall l q t e q' t' e',
             matches DOTALL_IGNORECASE (Lits l) q t e q' t' e' ->
             e' = e /\ exists mk, t = mk +:+ t' /\ Str.lower mk = Str.lower l).
  { intros l q t e q' t' e' M. inversion M; subst. split; [done|].
    eexists. split; [done|].
    by apply (proj1 (lits_ok_lower_any DOTALL_IGNORECASE l _ eq_refl)). }
  inversion N1 as [ | | | | | ? ? ? ? ? ? ? ? M1 | ? ? ? ? ? ? ? ? M2 | | | | ];
    subst; clear N1.
  { apply Hl in M1 as (-> & mk & -> & Hm). split; [done|]. exists mk. auto. }
  inversion M2 as [ | | | | | ? ? ? ? ? ? ? ? M1 | ? ? ? ? ? ? ? ? M3 | | | | ];
    subst; clear M2.
  { apply Hl in M1 as (-> & mk & -> & Hm). split; [done|]. exists mk. auto. }
  apply Hl in M3 as (-> & mk & -> & Hm). split; [done|]. exists mk. auto.
Qed.

Lemma marker_line_matches p r c :
  begins_marker_line r ->
  exists p' s', matches DOTALL_IGNORECASE re_marker_line p r c p' s' c.
Proof.
  intros (mk & post & -> & H). unfold re_marker_line.
  assert (Hl : forall l q, Str.lower mk = Str.lower l ->
                 matches DOTALL_IGNORECASE (Lits l) q (mk +:+ post) c
                         (end_prev q mk) post c).
  { intros l q Hlow. apply M_lits.
    by apply (proj2 (lits_ok_lower_any DOTALL_IGNORECASE l _ eq_refl)). }
  exists (end_prev (Some Char.LF) mk), post.
  eapply M_cat; [apply M_atom; reflexivity|].
  destruct H as [H | [H | H]].
  - apply M_alt_l, (Hl "THANK YOU" _ H).
  - apply M_alt_r, M_alt_l, (Hl "Sales Total" _ H).
  - apply M_alt_r, M_alt_r, (Hl "Freight Total" _ H).
Qed.

(** The block of a table region: where it sits, and that it stops at the
    first line that starts a terminal marker. *)
Lemma table_region text m :
  search DOTALL_IGNORECASE re_table text = Some m ->
  exists before am post,
    text = (before +:+ am +:+ String Char.LF "") +:+ group m 1 +:+ post
    /\ Str.lower am = "amount"
    /\ begins_marker_line post
    /\ forall v1 r1,
         group m 1 +:+ post = v1 +:+ r1 ->
         (String.length v1 < String.length (group m 1))%nat ->
         ~ begins_marker_line r1.
Proof.
  intros H. apply search_from_here in H as (pre & rest & -> & H).
  unfold match_here, re_table in H.
  apply run_cat_step in H as (p1 & s1 & c1 & A1 & H).
  apply run_cat_step in H as (p2 & s2 & c2 & A2 & H).
  apply run_cat_step in H as (p3 & s3 & c3 & A3 & H).
  apply run_cat_step in H as (p4 & s4 & c4 & A4 & H).
  apply run_cat_step in H as (p5 & s5 & c5 & A5 & H).
  apply run_cat_step in H as (p6 & s6 & c6 & A6 & H).
  apply matches_prefix in A1 as [v1 ->]. apply matches_prefix in A2 as [v2 ->].
  apply matches_prefix in A3 as [v3 ->]. apply matches_prefix in A4 as [v4 ->].
  inversion A5 as [ | | ? am ? ? ? Ham | | | | | | | | ]; subst; clear A5.
  apply (proj1 (lits_ok_lower_any DOTALL_IGNORECASE _ _ eq_refl)) in Ham.
  inversion A6 as [ | ? x ? ? ? Hx | | | | | | | | | ]; subst; clear A6.
  apply lf_atom in Hx as ->.
  unfold lazy_star in H.
  apply run_lazy_group_first in H as (v & post & -> & H & Hmin).
  fold re_marker_line in H, Hmin.
  apply run_sound in H as (p' & s' & c' & M & Hm).
  pose proof (marker_line_inv _ _ _ _ _ _ M) as (-> & mk & -> & Hmk).
  injection Hm as <-. unfold group. cbn [groups lookup Nat.eqb].
  exists (pre +:+ v1 +:+ v2 +:+ v3 +:+ v4), am, (String Char.LF (mk +:+ s')).
  split. { by rewrite !app_assoc_s, !app_cons_s, !app_nil_s. }
  split; [exact Ham|]. split; [by exists mk, s'|].
  intros w1 r1 Heq Hlt Hb.
  specialize (Hmin w1 r1 Heq Hlt).
  destruct (marker_line_matches (end_prev (Some Char.LF) w1) r1
              ((1%nat, w1) :: c6) Hb) as (q' & t' & Mb).
  eapply (run_complete DOTALL_IGNORECASE) in Mb as [res Hres];
    [rewrite Hmin in Hres; discriminate | by eexists].
Qed.

(** X17. When a table region is found, the block [parse_lines] scans is a
    piece of the text that follows a line feed after AMOUNT and is
    followed by a line feed and a terminal marker, and it ends at the
    first such marker line: no line feed inside the block is followed by
    a terminal marker. *)
Theorem table_block_ends_at_first_marker text :
  is_Some (search DOTALL_IGNORECASE re_table text) ->
  exists before am post,
    text = (before +:+ am +:+ String Char.LF "") +:+ table_block text +:+ post
    /\ Str.lower am = "amount"
    /\ begins_marker_line post
    /\ forall v1 r1,
         table_block text +:+ post = v1 +:+ r1 ->
         (String.length v1 < String.length (table_block text))%nat ->
         ~ begins_marker_line r1.
Proof.
  intros [m H]. unfold table_block. rewrite H. by apply table_region.
Qed.

Lemma table_block_ends_at_first_marker_witness :
  exists before am post,
    table_text
    = (before +:+ am +:+ String Char.LF "") +:+ table_block table_text +:+ post
    /\ Str.lower am = "amount"
    /\ begins_marker_line post
    /\ forall v1 r1,
         table_block table_text +:+ post = v1 +:+ r1 ->
         (String.length v1 < String.length (table_block table_text))%nat ->
         ~ begins_marker_line r1.
Proof.
  apply (table_block_ends_at_first_marker table_text).
  vm_compute. eexists. reflexivity.
Defined.
